(** * LogParser: template extraction, normalisation and embedding pipeline

    A shallow embedding of [log_parser.py] and the verification of its
    specification.  Python values are modelled as follows.

    - [str] is a sequence of Unicode code points ([list N]);
    - the standard-library calls the program makes ([str.strip], [re.sub],
      [json.loads]) are modelled by their semantics in CPython 3.11;
      [json.loads] with the limits of the interpreter on recursion and
      on the digits of an integer;
    - the OpenAI client is an interface ([OpenAI]) whose methods act on an
      abstract world state and may raise;
    - standard output is an interface ([Stdout]) that says which code
      points it can encode;
    - exceptions, the calls made to the service and the text printed are
      threaded through a small state / error / trace monad. *)

From Equations Require Import Equations.
From Stdlib Require Import String Ascii DecimalString List NArith ZArith Bool Arith Lia.
Import ListNotations.

Set Implicit Arguments.
Set Warnings "-register-all,-abstract-large-number".

(** ** Python [str] *)

Definition str := list N.

(** A string literal of the source, as a [str]. *)
Definition str_of (s : string) : str :=
  map N_of_ascii (list_ascii_of_string s).

Definition str_eqb (a b : str) : bool :=
  if list_eq_dec N.eq_dec a b then true else false.

(** [str(n)] for a natural number. *)
Definition decimal (n : nat) : str :=
  str_of (NilEmpty.string_of_uint (Nat.to_uint n)).

(** [str.isspace] on one code point: the Unicode characters Python treats
    as whitespace. *)
Definition py_isspace (c : N) : bool :=
  (((9 <=? c) && (c <=? 13)) || ((28 <=? c) && (c <=? 32))
   || (c =? 133) || (c =? 160) || (c =? 5760)
   || ((8192 <=? c) && (c <=? 8202))
   || (c =? 8232) || (c =? 8233) || (c =? 8239) || (c =? 8287)
   || (c =? 12288))%N.

(** [s.lstrip()] *)
Fixpoint lstrip (s : str) : str :=
  match s with
  | c :: r => if py_isspace c then lstrip r else s
  | [] => []
  end.

(** [s.rstrip()] *)
Fixpoint rstrip (s : str) : str :=
  match s with
  | c :: r =>
      match rstrip r with
      | [] => if py_isspace c then [] else [c]
      | r' => c :: r'
      end
  | [] => []
  end.

(** [s.strip()] *)
Definition strip (s : str) : str := rstrip (lstrip s).

(** [needle in s] for two strings: substring test. *)
Fixpoint is_prefix (p s : str) : bool :=
  match p, s with
  | [], _ => true
  | a :: p', b :: s' => (a =? b)%N && is_prefix p' s'
  | _ :: _, [] => false
  end.

Fixpoint is_substring (needle s : str) : bool :=
  is_prefix needle s ||
  match s with
  | _ :: r => is_substring needle r
  | [] => false
  end.

(** ** The fragment of [re] the program uses

    A pattern is a sequence of single-character classes, each taken once
    or one or more times (greedy [+]).  [r"<[^>]+>"] is [placeholder_re]. *)

Inductive charset :=
| Lit (c : N)
| NotIn (cs : list N).

Inductive quant := One | Plus.

Definition pattern := list (charset * quant).

Definition accepts (cls : charset) (x : N) : bool :=
  match cls with
  | Lit c => (x =? c)%N
  | NotIn cs => negb (existsb (N.eqb x) cs)
  end.

(** The backtracking matcher: the length of the match of [p] anchored at
    the start of [s], if there is one.  A greedy [+] takes as many
    characters as it can and gives them back one at a time while the rest
    of the pattern fails. *)
Fixpoint match_here (p : pattern) : str -> option nat :=
  match p with
  | [] => fun _ => Some 0
  | (cls, One) :: p' => fun s =>
      match s with
      | c :: r => if accepts cls c then option_map S (match_here p' r) else None
      | [] => None
      end
  | (cls, Plus) :: p' => fun s =>
      let more :=
        fix more (s : str) : option nat :=
          match s with
          | c :: r =>
              if accepts cls c then
                match more r with
                | Some n => Some (S n)
                | None => match_here p' s
                end
              else match_here p' s
          | [] => match_here p' []
          end in
      match s with
      | c :: r => if accepts cls c then option_map S (more r) else None
      | [] => None
      end
  end.

(** [re.sub(p, repl, s)] for a literal replacement: scan left to right,
    replace each match and resume after it; a character where no match
    starts is copied.  (An empty match is replaced and the scan advances
    by one character.) *)
Equations? re_sub (p : pattern) (repl : str) (s : str) : str
  by wf (length s) lt :=
  re_sub p repl [] with match_here p [] := {
    | Some _ => repl
    | None => [] };
  re_sub p repl (c :: r) with match_here p (c :: r) := {
    | Some (S k) => repl ++ re_sub p repl (skipn k r)
    | Some O => repl ++ c :: re_sub p repl r
    | None => c :: re_sub p repl r }.
Proof.
  all: simpl; try lia.
  rewrite length_skipn. lia.
Qed.

Definition lt_sign : N := 60%N.
Definition gt_sign : N := 62%N.

(** [r"<[^>]+>"] *)
Definition placeholder_re : pattern :=
  [(Lit lt_sign, One); (NotIn [gt_sign], Plus); (Lit gt_sign, One)].

(** [normalize_template]:
    [return re.sub(r"<[^>]+>", "<*>", template.strip())] *)
Definition normalize_template (template : str) : str :=
  re_sub placeholder_re (str_of "<*>") (strip template).


(** ** Values decoded from JSON

    What [json.loads] can return: [None], [bool], [int], [float] (kept as
    the literal that was read), [str], [list] and [dict].  A [dict] keeps
    its keys in insertion order. *)

Inductive value :=
| VNone
| VBool (b : bool)
| VInt (z : Z)
| VFloat (literal : str)
| VStr (s : str)
| VList (l : list value)
| VDict (d : list (str * value)).

Definition dict := list (str * value).

(** [d.get(k)] *)
Fixpoint dict_get (k : str) (d : dict) : option value :=
  match d with
  | [] => None
  | (k', v) :: d' => if str_eqb k k' then Some v else dict_get k d'
  end.

(** [k in d] *)
Definition dict_has (k : str) (d : dict) : bool :=
  match dict_get k d with Some _ => true | None => false end.

(** [d[k] = v]: an existing key keeps its place, a new one goes last. *)
Fixpoint dict_set (k : str) (v : value) (d : dict) : dict :=
  match d with
  | [] => [(k, v)]
  | (k', v') :: d' =>
      if str_eqb k k' then (k', v) :: d' else (k', v') :: dict_set k v d'
  end.

(** How [json.loads] fails on a [str]: with [json.JSONDecodeError], of
    which [description] is [str(e)], or with one of the two exceptions
    that come from the interpreter's limits, [RecursionError] when the
    text nests deeper than the interpreter allows and [ValueError] when
    an integer has more digits than [int] converts. *)
Inductive loads_error :=
| JSONDecodeError (description : str)
| NestingTooDeep
| IntegerTooLong.

(** The interface of [json.loads] on a [str]: the decoded value or the
    way it fails.  [python_json] below is the instance for CPython's
    decoder. *)
Class JsonDecoder := { json_loads : str -> value + loads_error }.

(** ** CPython's decoder

    [json.loads] as CPython implements it (the scanner of [_json]):
    whitespace is space, tab, newline and carriage return; strings are
    decoded strictly; [NaN], [Infinity] and [-Infinity] are accepted.  The
    decoder reports the first error with its position.  Two limits of the
    interpreter show, as CPython 3.11 has them: the decoder works with
    the levels of recursion the interpreter has left (entering an object
    or an array takes one, and so do the calls the scanner makes), and
    an integer literal is converted by [int], which refuses more than
    [int_max_str_digits] digits. *)

Module PyJson.

Local Open Scope N_scope.

(** How a scan ends when it gives no item: the scanner's
    [StopIteration] at an index where no value starts, a
    [JSONDecodeError], a [RecursionError], the [ValueError] of [int], or
    the fuel of this model ran out (which never happens, see
    [decode_has_fuel]). *)
Inductive error :=
| NoValue (pos : nat)
| Malformed (msg : string) (pos : nat)
| TooDeep
| TooManyDigits
| OutOfFuel.

(** [sys.get_int_max_str_digits()], as the interpreter starts. *)
Definition int_max_str_digits : nat := 4300.

(** A decoded item, the rest of the input and the index reached. *)
Definition scanned (A : Type) : Type := (A * str * nat) + error.

(** [raise_errmsg] of the scanner: it builds the [JSONDecodeError] by
    calling the Python class, whose [__init__] calls further; that takes
    three levels of recursion, and with fewer left the error that comes
    out is a [RecursionError]. *)
Definition fail {A} (depth : nat) (msg : string) (pos : nat) : A + error :=
  if (depth <? 3)%nat then inr TooDeep else inr (Malformed msg pos).

Definition is_ws (c : N) : bool :=
  (c =? 32) || (c =? 9) || (c =? 10) || (c =? 13).

Fixpoint skip_ws (s : str) (pos : nat) : str * nat :=
  match s with
  | c :: r => if is_ws c then skip_ws r (S pos) else (s, pos)
  | [] => (s, pos)
  end.

Definition is_digit (c : N) : bool := (48 <=? c) && (c <=? 57).

Definition hex_digit (c : N) : option N :=
  if (48 <=? c) && (c <=? 57) then Some (c - 48)
  else if (97 <=? c) && (c <=? 102) then Some (c - 87)
  else if (65 <=? c) && (c <=? 70) then Some (c - 55)
  else None.

(** Four hexadecimal digits at the head of [s]. *)
Definition hex4 (s : str) : option N :=
  match s with
  | a :: b :: c :: d :: _ =>
      match hex_digit a, hex_digit b, hex_digit c, hex_digit d with
      | Some x, Some y, Some z, Some t =>
          Some (((x * 16 + y) * 16 + z) * 16 + t)
      | _, _, _, _ => None
      end
  | _ => None
  end.

Definition is_high_surrogate (u : N) : bool :=
  (55296 <=? u) && (u <=? 56319).
Definition is_low_surrogate (u : N) : bool :=
  (56320 <=? u) && (u <=? 57343).
Definition join_surrogates (hi lo : N) : N :=
  65536 + (hi - 55296) * 1024 + (lo - 56320).

(** The character a one-letter escape stands for. *)
Definition unescape (c : N) : option N :=
  if c =? 34 then Some 34
  else if c =? 92 then Some 92
  else if c =? 47 then Some 47
  else if c =? 98 then Some 8
  else if c =? 102 then Some 12
  else if c =? 110 then Some 10
  else if c =? 114 then Some 13
  else if c =? 116 then Some 9
  else None.

Definition cons_char (c : N) (r : scanned str) : scanned str :=
  match r with
  | inl (t, rest, pos) => inl (c :: t, rest, pos)
  | inr e => inr e
  end.

(** [scanstring]: [s] starts just after the opening quote, which is at
    index [begin]; [pos] is the index of the head of [s]. *)
Fixpoint scanstring (fuel depth : nat) (begin : nat) (s : str) (pos : nat)
    : scanned str :=
  match fuel with
  | O => inr OutOfFuel
  | S fuel' =>
      match s with
      | [] => fail depth "Unterminated string starting at" begin
      | c :: r =>
          if c =? 34 then inl ([], r, S pos)
          else if c =? 92 then
            match r with
            | [] => fail depth "Unterminated string starting at" begin
            | e :: r2 =>
                if e =? 117 then
                  if (List.length r2 <=? 4)%nat
                  then fail depth "Invalid \uXXXX escape" (pos + 1)
                  else
                    match hex4 r2 with
                    | None => fail depth "Invalid \uXXXX escape" (pos + 1)
                    | Some u =>
                        let r6 := skipn 4 r2 in
                        let single :=
                          cons_char u
                            (scanstring fuel' depth begin r6 (pos + 6)) in
                        if is_high_surrogate u
                           && (6 <? List.length r6)%nat
                           && is_prefix [92; 117] r6
                        then
                          match hex4 (skipn 2 r6) with
                          | None =>
                              fail depth "Invalid \uXXXX escape" (pos + 7)
                          | Some u2 =>
                              if is_low_surrogate u2
                              then cons_char (join_surrogates u u2)
                                     (scanstring fuel' depth begin (skipn 6 r6)
                                        (pos + 12))
                              else single
                          end
                        else single
                    end
                else
                  match unescape e with
                  | Some ch =>
                      cons_char ch (scanstring fuel' depth begin r2 (pos + 2))
                  | None => fail depth "Invalid \escape" pos
                  end
            end
          else if c <=? 31
          then fail depth "Invalid control character at" pos
          else cons_char c (scanstring fuel' depth begin r (S pos))
      end
  end.

(** The longest run of decimal digits at the head of [s]. *)
Fixpoint span_digits (s : str) : str * str :=
  match s with
  | c :: r =>
      if is_digit c then let (ds, rest) := span_digits r in (c :: ds, rest)
      else ([], s)
  | [] => ([], [])
  end.

Definition int_of_digits (ds : str) : Z :=
  fold_left (fun acc c => (acc * 10 + Z.of_N (c - 48))%Z) ds 0%Z.

(** The integer part: [0], or a non-zero digit and more digits. *)
Definition scan_int (s : str) : option (str * str) :=
  match s with
  | c :: r =>
      if c =? 48 then Some ([c], r)
      else if is_digit c then
        let (ds, rest) := span_digits r in Some (c :: ds, rest)
      else None
  | [] => None
  end.

(** The fraction: a dot and at least one digit. *)
Definition scan_frac (s : str) : str * str :=
  match s with
  | c :: d :: r =>
      if (c =? 46) && is_digit d then
        let (ds, rest) := span_digits r in (c :: d :: ds, rest)
      else ([], s)
  | _ => ([], s)
  end.

(** The exponent: [e] or [E], an optional sign and at least one
    digit. *)
Definition scan_exp (s : str) : str * str :=
  match s with
  | c :: r =>
      if (c =? 101) || (c =? 69) then
        let (sign, r') :=
          match r with
          | g :: (_ :: _) as t =>
              if (g =? 45) || (g =? 43) then ([g], t) else ([], r)
          | _ => ([], r)
          end in
        match span_digits r' with
        | ([], _) => ([], s)
        | (ds, rest) => (c :: sign ++ ds, rest)
        end
      else ([], s)
  | [] => ([], s)
  end.

(** A number at the head of [s]: an [int] when it has neither fraction
    nor exponent, else a [float].  The conversion of an [int] with too
    many digits raises. *)
Definition match_number (s : str) (pos : nat) : scanned value :=
  let (neg, s1) :=
    match s with
    | c :: r => if c =? 45 then (true, r) else (false, s)
    | [] => (false, s)
    end in
  match scan_int s1 with
  | None => inr (NoValue pos)
  | Some (ds, s2) =>
      let (frac, s3) := scan_frac s2 in
      let (exp, s4) := scan_exp s3 in
      let sign := if neg then [45] else [] in
      let literal := sign ++ ds ++ frac ++ exp in
      match frac, exp with
      | [], [] =>
          if (int_max_str_digits <? List.length ds)%nat
          then inr TooManyDigits
          else
            inl (VInt (if neg then - int_of_digits ds
                       else int_of_digits ds)%Z,
                 s4, (pos + List.length literal)%nat)
      | _, _ => inl (VFloat literal, s4, (pos + List.length literal)%nat)
      end
  end.

(** A named constant [name] at the head of [s]. *)
Definition match_word (name : string) (s : str) : option str :=
  let w := str_of name in
  if is_prefix w s then Some (skipn (List.length w) s) else None.

(** [NaN], [Infinity] and [-Infinity] are looked up by a call of
    [parse_constant], which takes a level of recursion. *)
Definition constant (depth : nat) (name : string) (r : str) (pos : nat)
    : scanned value :=
  match depth with
  | O => inr TooDeep
  | S _ => inl (VFloat (str_of name), r, pos)
  end.

Definition scan_constant (depth : nat) (s : str) (pos : nat)
    : scanned value :=
  match match_word "null" s with
  | Some r => inl (VNone, r, (pos + 4)%nat)
  | None =>
  match match_word "true" s with
  | Some r => inl (VBool true, r, (pos + 4)%nat)
  | None =>
  match match_word "false" s with
  | Some r => inl (VBool false, r, (pos + 5)%nat)
  | None =>
  match match_word "NaN" s with
  | Some r => constant depth "NaN" r (pos + 3)%nat
  | None =>
  match match_word "Infinity" s with
  | Some r => constant depth "Infinity" r (pos + 8)%nat
  | None =>
  match match_word "-Infinity" s with
  | Some r => constant depth "-Infinity" r (pos + 9)%nat
  | None => match_number s pos
  end end end end end end.

(** [scan_once]: one JSON value at the head of [s], with [depth] levels
    of recursion left; entering an object or an array takes one.
    [members] and [elements] are the loops over the items of an object
    and of an array, entered after the first item is known to be
    there. *)
Fixpoint scan_once (fuel depth : nat) (s : str) (pos : nat) {struct fuel}
    : scanned value :=
  match fuel with
  | O => inr OutOfFuel
  | S fuel' =>
      match s with
      | [] => inr (NoValue pos)
      | c :: r =>
          if c =? 34 then
            match scanstring (S (List.length r)) depth pos r (S pos) with
            | inl (t, rest, pos') => inl (VStr t, rest, pos')
            | inr e => inr e
            end
          else if c =? 123 then
            match depth with
            | O => inr TooDeep
            | S depth' =>
                let (r1, p1) := skip_ws r (S pos) in
                match r1 with
                | c1 :: r2 =>
                    if c1 =? 125 then inl (VDict [], r2, S p1)
                    else members fuel' depth' [] r1 p1
                | [] => members fuel' depth' [] r1 p1
                end
            end
          else if c =? 91 then
            match depth with
            | O => inr TooDeep
            | S depth' =>
                let (r1, p1) := skip_ws r (S pos) in
                match r1 with
                | c1 :: r2 =>
                    if c1 =? 93 then inl (VList [], r2, S p1)
                    else elements fuel' depth' [] r1 p1
                | [] => elements fuel' depth' [] r1 p1
                end
            end
          else scan_constant depth s pos
      end
  end

with members (fuel depth : nat) (acc : dict) (s : str) (pos : nat)
    {struct fuel} : scanned value :=
  match fuel with
  | O => inr OutOfFuel
  | S fuel' =>
      match s with
      | c :: r =>
          if c =? 34 then
            match scanstring (S (List.length r)) depth pos r (S pos) with
            | inr e => inr e
            | inl (key, r1, p1) =>
                let (r2, p2) := skip_ws r1 p1 in
                match r2 with
                | c2 :: r3 =>
                    if c2 =? 58 then
                      let (r4, p4) := skip_ws r3 (S p2) in
                      match scan_once fuel' depth r4 p4 with
                      | inr e => inr e
                      | inl (v, r5, p5) =>
                          let acc' := dict_set key v acc in
                          let (r6, p6) := skip_ws r5 p5 in
                          match r6 with
                          | c6 :: r7 =>
                              if c6 =? 125 then inl (VDict acc', r7, S p6)
                              else if c6 =? 44 then
                                let (r8, p8) := skip_ws r7 (S p6) in
                                members fuel' depth acc' r8 p8
                              else fail depth "Expecting ',' delimiter" p6
                          | [] => fail depth "Expecting ',' delimiter" p6
                          end
                      end
                    else fail depth "Expecting ':' delimiter" p2
                | [] => fail depth "Expecting ':' delimiter" p2
                end
            end
          else
            fail depth "Expecting property name enclosed in double quotes" pos
      | [] =>
          fail depth "Expecting property name enclosed in double quotes" pos
      end
  end

with elements (fuel depth : nat) (acc : list value) (s : str) (pos : nat)
    {struct fuel} : scanned value :=
  match fuel with
  | O => inr OutOfFuel
  | S fuel' =>
      match scan_once fuel' depth s pos with
      | inr e => inr e
      | inl (v, r1, p1) =>
          let acc' := acc ++ [v] in
          let (r2, p2) := skip_ws r1 p1 in
          match r2 with
          | c2 :: r3 =>
              if c2 =? 93 then inl (VList acc', r3, S p2)
              else if c2 =? 44 then
                let (r4, p4) := skip_ws r3 (S p2) in
                elements fuel' depth acc' r4 p4
              else fail depth "Expecting ',' delimiter" p2
          | [] => fail depth "Expecting ',' delimiter" p2
          end
      end
  end.

(** [JSONDecoder.decode]: leading whitespace, one value, trailing
    whitespace, and nothing else.  The errors built here are built one
    and two calls above the scanner. *)
Definition decode (fuel depth : nat) (s : str) : value + error :=
  match s with
  | 65279 :: _ =>
      inr (Malformed "Unexpected UTF-8 BOM (decode using utf-8-sig)" 0)
  | _ =>
      let (s1, p1) := skip_ws s 0 in
      match scan_once fuel depth s1 p1 with
      | inr (NoValue pos) => fail (depth + 1) "Expecting value" pos
      | inr e => inr e
      | inl (v, r, p) =>
          match skip_ws r p with
          | ([], _) => inl v
          | (_ :: _, p') => fail (depth + 2) "Extra data" p'
          end
      end
  end.

(** The line and the column (both from 1) of index [pos] in [doc]. *)
Fixpoint line_col (doc : str) (pos : nat) (line col : nat) : nat * nat :=
  match pos, doc with
  | S pos', c :: doc' =>
      if c =? 10 then line_col doc' pos' (S line) 1%nat
      else line_col doc' pos' line (S col)
  | _, _ => (line, col)
  end.

(** [str(e)] for the [JSONDecodeError] with message [msg] at [pos]. *)
Definition describe (doc : str) (msg : string) (pos : nat) : str :=
  let (line, col) := line_col doc pos 1%nat 1%nat in
  str_of msg ++ str_of ": line " ++ decimal line
    ++ str_of " column " ++ decimal col
    ++ str_of " (char " ++ decimal pos ++ str_of ")".

(** [json.loads(s)] where the interpreter has [depth] levels of
    recursion left for the decoder. *)
Definition loads (depth : nat) (s : str) : value + loads_error :=
  match decode (2 * List.length s + 1) depth s with
  | inl v => inl v
  | inr (Malformed msg pos) => inr (JSONDecodeError (describe s msg pos))
  | inr (NoValue pos) =>
      inr (JSONDecodeError (describe s "Expecting value" pos))
  | inr TooManyDigits => inr IntegerTooLong
  | inr TooDeep | inr OutOfFuel => inr NestingTooDeep
  end.

End PyJson.

Definition python_json_at (depth : nat) : JsonDecoder :=
  {| json_loads := PyJson.loads depth |}.

(** The nesting CPython accepts with its recursion limit of 1000, when
    [json.loads] is called as the program calls it: from a function that
    [main] calls. *)
Definition cpython_depth : nat := 993.

Definition python_json : JsonDecoder := python_json_at cpython_depth.

(** ** Exceptions, effects and the OpenAI client *)

(** How a call to the service can fail. *)
Inductive api_failure :=
| Timeout
| ConnectionFailed
| AuthenticationFailed
| RateLimited
| MalformedPayload.

Inductive exn :=
| APIError (why : api_failure)
| IndexError
| KeyError (key : str)
| TypeError
| AttributeError
| ValueError
| RecursionError
| UnicodeEncodeError.

Inductive result (A : Type) :=
| Ok (a : A)
| Raise (e : exn).
Arguments Ok {A} a.
Arguments Raise {A} e.

(** What the program does to the outside: the two service calls with
    their arguments, and the lines it prints.  [PrintJson label v] is
    [print(label, json.dumps(v, indent=2))]. *)
Inductive event :=
| ChatCall (model : str) (temperature : Z) (messages : list (str * str))
| EmbedCall (model : str) (input : list str)
| Print (text : str)
| PrintJson (label : str) (v : value).

Record outcome (W A : Type) := Outcome {
  res : result A;
  world : W;
  events : list event }.
Arguments Outcome {W A} res world events.

(** A computation: from the state of the world to a result or an
    exception, the new state and the events in the order they happened. *)
Definition M (W A : Type) := W -> outcome W A.

Definition ret {W A} (a : A) : M W A :=
  fun w => Outcome (Ok a) w [].

Definition bind {W A B} (m : M W A) (k : A -> M W B) : M W B :=
  fun w =>
    let o := m w in
    match res o with
    | Ok a =>
        let o' := k a (world o) in
        Outcome (res o') (world o') (events o ++ events o')
    | Raise e => Outcome (Raise e) (world o) (events o)
    end.

Definition lift {W A} (r : result A) : M W A :=
  fun w => Outcome r w [].

Definition raise {W A} (e : exn) : M W A :=
  fun w => Outcome (Raise e) w [].

Definition emit {W} (e : event) : M W unit :=
  fun w => Outcome (Ok tt) w [e].

(** [sys.stdout] as [print] sees it: the code points its encoding (with
    its error handler) can write. *)
Class Stdout := { encodes : N -> bool }.

(** A text [print] can write. *)
Definition encodable `{Stdout} (text : str) : bool :=
  forallb encodes text.
Arguments encodable {_} text : simpl never.

(** [print(text)] for a text that comes from outside the program: the
    whole text is encoded before any of it is written, and a code point
    the encoding cannot write raises [UnicodeEncodeError]. *)
Definition print_text {W} `{Stdout} (text : str) : M W unit :=
  if encodable text then emit (Print text) else raise UnicodeEncodeError.

(** UTF-8 with the [strict] error handler: every code point but the
    surrogates U+D800 to U+DFFF.  A [str] of the service can hold one:
    the client decodes the body of the answer as JSON, where an escape
    of a single surrogate is accepted. *)
Definition utf8_strict : Stdout :=
  {| encodes c := negb ((55296 <=? c)%N && (c <=? 57343)%N) |}.

Notation "x <- m ;; k" := (bind m (fun x => k))
  (at level 61, m at next level, right associativity).
Notation "m ;;; k" := (bind m (fun _ => k))
  (at level 61, right associativity).

(** The objects the client returns, with the attributes the program
    reads. *)
Record ChatCompletionMessage := { content : option str }.
Record Choice := { message : ChatCompletionMessage }.
Record ChatCompletion := { choices : option (list Choice) }.
Record Embedding (F : Type) := { embedding : list F }.
Record CreateEmbeddingResponse (F : Type) := { data : list (Embedding F) }.
Arguments embedding {F} _.
Arguments data {F} _.

(** [client = OpenAI(...)]: the two methods the program calls.  [W] is the
    state of the service and of the network, [F] the type of the numbers
    in an embedding vector. *)
Class OpenAI (W F : Type) := {
  chat_completions_create :
    str -> Z -> list (str * str) -> W -> (api_failure + ChatCompletion) * W;
  embeddings_create :
    str -> list str -> W -> (api_failure + CreateEmbeddingResponse F) * W }.

(** ** The program *)

Definition nl : str := [10%N].
Definition dq : str := [34%N].

(** A string literal of the source in double quotes. *)
Definition quoted (s : string) : str := dq ++ str_of s ++ dq.

(** The lines of a multi-line literal, joined by newlines. *)
Fixpoint join_lines (ls : list str) : str :=
  match ls with
  | [] => []
  | [l] => l
  | l :: ls' => l ++ nl ++ join_lines ls'
  end.

Definition instruction_1 : str :=
  str_of "    1. Identify a generalized log template by replacing variable parts (timestamp, usernames, IPs, IDs, numbers, etc.) with clearly typed placeholders like <TIMESTAMP>, <USERNAME>, <IP_ADDRESS>.".

Definition instruction_2 : str :=
  str_of "    2. Extract the values of those variables in a JSON dictionary.".

(** The f-string of [extract_template_and_variables]. *)
Definition zero_shot_prompt (log_line : str) : str :=
  join_lines
    [ [];
      str_of "    You are a log parser. For the given log line:";
      instruction_1;
      instruction_2;
      str_of "    3. Output the JSON object with two fields: "
        ++ quoted "template" ++ str_of " and " ++ quoted "variables"
        ++ str_of ".";
      [];
      str_of "    Log Line: " ++ log_line;
      str_of "    " ].

(** The f-string of [extract_template_and_variables_fewshot]. *)
Definition few_shot_prompt (log_line few_shot_examples : str) : str :=
  join_lines
    [ [];
      str_of "    You are a log parser. For the given log line:";
      instruction_1;
      instruction_2;
      str_of "    3. Output the JSON object with two fields: "
        ++ quoted "template" ++ str_of ", " ++ quoted "variables"
        ++ str_of ", " ++ quoted "original_log" ++ str_of ".";
      [];
      str_of "    If possible, make use of the examples to improve accuracy:";
      [];
      str_of "    " ++ few_shot_examples;
      [];
      str_of "    Now process the following:";
      [];
      str_of "    Log Line: " ++ log_line;
      str_of "    " ].

(** [xs[0]] *)
Definition first_item {A} (xs : list A) : result A :=
  match xs with
  | x :: _ => Ok x
  | [] => Raise IndexError
  end.

(** [xs[0]] for an attribute that is a list or [None]. *)
Definition first_choice {A} (xs : option (list A)) : result A :=
  match xs with
  | Some l => first_item l
  | None => Raise TypeError
  end.

(** [c.strip()] for an attribute that is a [str] or [None]. *)
Definition strip_content (c : option str) : result str :=
  match c with
  | Some s => Ok (strip s)
  | None => Raise AttributeError
  end.

(** [needle in v] *)
Definition py_contains (needle : str) (v : value) : result bool :=
  match v with
  | VDict d => Ok (dict_has needle d)
  | VList l =>
      Ok (existsb (fun x => match x with
                            | VStr s => str_eqb needle s
                            | _ => false
                            end) l)
  | VStr s => Ok (is_substring needle s)
  | VNone | VBool _ | VInt _ | VFloat _ => Raise TypeError
  end.

(** [v[key]] for a [str] key. *)
Definition py_getitem (v : value) (key : str) : result value :=
  match v with
  | VDict d =>
      match dict_get key d with
      | Some x => Ok x
      | None => Raise (KeyError key)
      end
  | _ => Raise TypeError
  end.

(** [normalize_template(v)] on whatever value the caller passes: only a
    [str] has [strip]. *)
Definition normalize_template_of (v : value) : result str :=
  match v with
  | VStr s => Ok (normalize_template s)
  | _ => Raise AttributeError
  end.

Section Program.

Context {W F : Type} {client : OpenAI W F} {json : JsonDecoder}
  {stdout : Stdout}.

(** [client.chat.completions.create(model=..., temperature=...,
    messages=...)] *)
Definition chat_create (model : str) (temperature : Z)
    (messages : list (str * str)) : M W ChatCompletion :=
  fun w =>
    let (r, w') := chat_completions_create model temperature messages w in
    Outcome (match r with
             | inr response => Ok response
             | inl why => Raise (APIError why)
             end) w' [ChatCall model temperature messages].

(** [client.embeddings.create(model=..., input=...)] *)
Definition embed_create (model : str) (input : list str)
    : M W (CreateEmbeddingResponse F) :=
  fun w =>
    let (r, w') := embeddings_create model input w in
    Outcome (match r with
             | inr response => Ok response
             | inl why => Raise (APIError why)
             end) w' [EmbedCall model input].

Definition extract_template_and_variables (log_line : str) : M W value :=
  let prompt := zero_shot_prompt log_line in
  response <- chat_create (str_of "gpt-4") 0
                [(str_of "user", prompt)] ;;
  choice <- lift (first_choice (choices response)) ;;
  content <- lift (strip_content (content (message choice))) ;;
  match json_loads content with
  | inl v => ret v
  | inr (JSONDecodeError e) =>
      ret (VDict [ (str_of "template", VStr (str_of "<PARSE_ERROR>"));
                   (str_of "variables", VDict []);
                   (str_of "error", VStr e) ])
  | inr NestingTooDeep => raise RecursionError
  | inr IntegerTooLong => raise ValueError
  end.

Definition extract_template_and_variables_fewshot
    (log_line few_shot_examples : str) : M W value :=
  let prompt := few_shot_prompt log_line few_shot_examples in
  response <- chat_create (str_of "gpt-4") 0
                [(str_of "user", prompt)] ;;
  choice <- lift (first_choice (choices response)) ;;
  content <- lift (strip_content (content (message choice))) ;;
  print_text (str_of "Raw model output:" ++ nl ++ content ++ nl) ;;;
  match json_loads content with
  | inl v => ret v
  | inr (JSONDecodeError e) =>
      ret (VDict [ (str_of "template", VStr (str_of "<PARSE_ERROR>"));
                   (str_of "variables", VDict []);
                   (str_of "error", VStr e) ])
  | inr NestingTooDeep => raise RecursionError
  | inr IntegerTooLong => raise ValueError
  end.

Definition get_embedding (text : str) : M W (list F) :=
  response <- embed_create (str_of "text-embedding-3-small") [text] ;;
  item <- lift (first_item (data response)) ;;
  ret (embedding item).

(** [FEW_SHOT_EXAMPLES] *)
Definition FEW_SHOT_EXAMPLES : str :=
  join_lines
    [ [];
      str_of "Example 1:";
      str_of "Log Line:";
      str_of "2023-01-01 10:23:45 User alice logged in from 192.168.1.1";
      str_of "{" ++ quoted "template" ++ str_of ": "
        ++ quoted "<TIMESTAMP> User <USERNAME> logged in from <IP_ADDRESS>"
        ++ str_of ",";
      str_of " " ++ quoted "variables" ++ str_of ": {";
      str_of "   " ++ quoted "TIMESTAMP" ++ str_of ": "
        ++ quoted "2023-01-01 10:23:45" ++ str_of ",";
      str_of "   " ++ quoted "USERNAME" ++ str_of ": "
        ++ quoted "alice" ++ str_of ",";
      str_of "   " ++ quoted "IP_ADDRESS" ++ str_of ": "
        ++ quoted "192.168.1.1";
      str_of " }}";
      [];
      str_of "Example 2:";
      str_of "Log Line:";
      str_of "Error: failed to connect to database db42 on host 10.0.0.2";
      str_of "{" ++ quoted "template" ++ str_of ": "
        ++ quoted "Error: failed to connect to database <DB_NAME> on host <IP_ADDRESS>"
        ++ str_of ",";
      str_of " " ++ quoted "variables" ++ str_of ": {";
      str_of "   " ++ quoted "DB_NAME" ++ str_of ": "
        ++ quoted "db42" ++ str_of ",";
      str_of "   " ++ quoted "IP_ADDRESS" ++ str_of ": "
        ++ quoted "10.0.0.2";
      str_of " }}";
      [] ].

(** The sample [logs] of [main]. *)
Definition logs : list str :=
  [ str_of "2024-03-12 12:43:22,934 - user john_doe logged in from 192.168.1.1";
    str_of "081109 203615 148 INFO dfs.DataNode$PacketResponder: PacketResponder 1 for block blk_38865049064139660 terminating";
    str_of "BLOCK* NameSystem.addStoredBlock: blockMap updated: 10.251.73.220:50010 is added to blk_7128370237687728475 size 67108864";
    str_of "Jun 14 15:16:01 combo sshd(pam_unix)[19939]: authentication failure; logname= uid=0 euid=0 tty=NODEVssh ruser= rhost=218.188.2.4";
    str_of "17/06/09 20:10:40 INFO executor.CoarseGrainedExecutorBackend: Registered signal handlers for [TERM, HUP, INT]";
    str_of "17/06/09 20:10:40 INFO spark.SecurityManager: Changing view acls to: yarn,curi";
    str_of "Error: failed to connect to database worker64 on host 10.1.4.2" ].

(** The body of the [for log in logs] loop of [main].  The prints of
    [main] itself are taken to succeed and are written with [emit]: the
    sample lines and the length are ASCII, and [json.dumps] writes what
    is not ASCII as escapes.  (The recursion [json.dumps] needs for a
    record nested as deep as the decoder allows is not modelled.) *)
Definition main_body (log : str) : M W unit :=
  emit (Print (nl ++ str_of "--- Processing log ---" ++ nl ++ log)) ;;;
  result <- extract_template_and_variables_fewshot log FEW_SHOT_EXAMPLES ;;
  emit (PrintJson (str_of "Parsed result:") result) ;;;
  has_template <- lift (py_contains (str_of "template") result) ;;
  if has_template : bool then
    template <- lift (py_getitem result (str_of "template")) ;;
    text <- lift (normalize_template_of template) ;;
    embedding <- get_embedding text ;;
    emit (Print (str_of "Embedding length: "
                 ++ decimal (List.length embedding)))
  else ret tt.

(** [for x in xs: body(x)] *)
Fixpoint for_each (body : str -> M W unit) (xs : list str) : M W unit :=
  match xs with
  | [] => ret tt
  | x :: xs' => body x ;;; for_each body xs'
  end.

(** [main], for any list of log lines in place of the samples (lines
    that standard output can encode, as the samples are). *)
Definition main_on (lines : list str) : M W unit :=
  for_each main_body lines.

Definition main : M W unit := main_on logs.

End Program.

(** ** The notions of the specification *)

(** A placeholder: ['<'], one or more characters other than ['>'], and
    the first ['>'] that follows. *)
Definition placeholder (name : str) : str :=
  lt_sign :: name ++ [gt_sign].

Definition placeholder_name (name : str) : Prop :=
  name <> [] /\ ~ In gt_sign name.

Definition starts_with_placeholder (s : str) : Prop :=
  exists name rest, placeholder_name name /\ s = placeholder name ++ rest.

Definition has_placeholder (s : str) : Prop :=
  exists before rest, starts_with_placeholder rest /\ s = before ++ rest.

(** [Collapsed s out]: [out] is [s] with its placeholders, taken from left
    to right without overlap, each replaced by the token [<*>]. *)
Inductive Collapsed : str -> str -> Prop :=
| Collapsed_end : Collapsed [] []
| Collapsed_placeholder name rest out :
    placeholder_name name ->
    Collapsed rest out ->
    Collapsed (placeholder name ++ rest) (str_of "<*>" ++ out)
| Collapsed_copy c rest out :
    ~ starts_with_placeholder (c :: rest) ->
    Collapsed rest out ->
    Collapsed (c :: rest) (c :: out).

(** [Trimmed t s]: [s] is [t] without its leading and trailing
    whitespace. *)
Definition Trimmed (t s : str) : Prop :=
  exists before after,
    t = before ++ s ++ after /\
    forallb py_isspace before = true /\
    forallb py_isspace after = true /\
    (forall c r, s = c :: r -> py_isspace c = false) /\
    (forall r c, s = r ++ [c] -> py_isspace c = false).

(** The record the extractors return on a decode failure:
    [{"template": "<PARSE_ERROR>", "variables": {}, "error": msg}]. *)
Definition parse_error_record (msg : str) : value :=
  VDict [ (str_of "template", VStr (str_of "<PARSE_ERROR>"));
          (str_of "variables", VDict []);
          (str_of "error", VStr msg) ].

(** The loop of a greedy [+], as [match_here] runs it: [match_here]
    is this loop where the pattern has a [+]. *)
Definition plus_more (cls : charset) (k : str -> option nat)
    : str -> option nat :=
  fix more (s : str) : option nat :=
    match s with
    | c :: r =>
        if accepts cls c then
          match more r with
          | Some n => Some (S n)
          | None => k s
          end
        else k s
    | [] => k []
    end.

(** ** Scripted clients and what a run shows *)

(** The text of the first choice of a completion, when it has one. *)
Definition raw_text (response : ChatCompletion) : option str :=
  match choices response with
  | Some (choice :: _) => content (message choice)
  | Some [] | None => None
  end.

(** A scripted client: each call takes the next prepared answer of its
    kind; with none left the call times out.  Embedding vectors hold
    integers. *)
Record script := Script {
  chat_answers : list (api_failure + ChatCompletion);
  embed_answers : list (api_failure + CreateEmbeddingResponse Z) }.

Definition scripted_client : OpenAI script Z := {|
  chat_completions_create _ _ _ w :=
    match chat_answers w with
    | a :: rest => (a, Script rest (embed_answers w))
    | [] => (inl Timeout, w)
    end;
  embeddings_create _ _ w :=
    match embed_answers w with
    | a :: rest => (a, Script (chat_answers w) rest)
    | [] => (inl Timeout, w)
    end |}.

(** A completion with one choice whose content is [text]. *)
Definition completion (text : str) : ChatCompletion :=
  {| choices := Some [ {| message := {| content := Some text |} |} ] |}.

(** An embedding response with one vector. *)
Definition one_vector (v : list Z) : CreateEmbeddingResponse Z :=
  {| data := [ {| embedding := v |} ] |}.

Ltac run_program :=
  unfold extract_template_and_variables,
    extract_template_and_variables_fewshot, get_embedding,
    chat_create, embed_create, bind, lift, ret, raise, print_text, emit,
    raw_text in *;
  simpl in *.

(** The names the program passes to the service. *)
Definition embedding_model : str := str_of "text-embedding-3-small".

(** What [main] prints before it works on a line. *)
Definition processing_header : str :=
  nl ++ str_of "--- Processing log ---" ++ nl.

Definition parsed_label : str := str_of "Parsed result:".

(** The line an event announces, when the event is the header print. *)
Definition announced (e : event) : list str :=
  match e with
  | Print text =>
      if is_prefix processing_header text
      then [skipn (length processing_header) text]
      else []
  | _ => []
  end.

(** The lines the driver started to work on, in order. *)
Definition processed (evs : list event) : list str :=
  flat_map announced evs.

(** The records the driver printed, in order. *)
Definition parsed_results (evs : list event) : list value :=
  flat_map (fun e => match e with PrintJson _ v => [v] | _ => [] end) evs.

(** The input batches of the embedding calls, in order. *)
Definition embed_calls (evs : list event) : list (list str) :=
  flat_map (fun e => match e with EmbedCall _ input => [input] | _ => [] end)
    evs.

(** The events of a line the driver finished: its header, one record. *)
Definition complete_block (line : str) (block : list event) : Prop :=
  processed block = [line] /\ length (parsed_results block) = 1.

(** The events of a line on which the driver stopped: its header, and
    its record if the failure came after the extraction. *)
Definition partial_block (line : str) (block : list event) : Prop :=
  processed block = [line] /\ length (parsed_results block) <= 1.

(** The template the driver embeds for a record, if any: the record has
    to be a [dict] with a [str] under ["template"]. *)
Definition embedded_template (record : value) : option str :=
  match record with
  | VDict d =>
      match dict_get (str_of "template") d with
      | Some (VStr s) => Some s
      | _ => None
      end
  | _ => None
  end.

(** ** Examples *)

(** [{"template": "x"] : an object whose closing brace is missing. *)
Definition truncated_text : str :=
  str_of "{" ++ quoted "template" ++ str_of ": " ++ quoted "x".

(** [{"template": "x", "extra": 1}] *)
Definition extra_field_text : str :=
  str_of "{" ++ quoted "template" ++ str_of ": " ++ quoted "x"
    ++ str_of ", " ++ quoted "extra" ++ str_of ": 1}".

(** [{"template": "<TIMESTAMP> User <USERNAME>",
      "variables": {"TIMESTAMP": "10:23:45", "USERNAME": "alice"}}] *)
Definition well_formed_text : str :=
  str_of "{" ++ quoted "template" ++ str_of ": "
    ++ quoted "<TIMESTAMP> User <USERNAME>" ++ str_of ", "
    ++ quoted "variables" ++ str_of ": {"
    ++ quoted "TIMESTAMP" ++ str_of ": " ++ quoted "10:23:45" ++ str_of ", "
    ++ quoted "USERNAME" ++ str_of ": " ++ quoted "alice" ++ str_of "}}".

Definition sample_log : str :=
  str_of "10:23:45 User alice".

Definition gpt_4 : str := str_of "gpt-4".
Definition user : str := str_of "user".

(** [not json] : a text that is no JSON value. *)
Definition malformed_text : str := str_of "not json".

Definition second_log : str := str_of "10:23:46 User bob".

(** A scan went well: it did not run out of fuel, and what it left of the
    input is no longer than the input. *)
Definition in_budget {A : Type} (s : str) (r : PyJson.scanned A) : Prop :=
  match r with
  | inl (_, rest, _) => length rest <= length s
  | inr PyJson.OutOfFuel => False
  | inr (PyJson.NoValue _) | inr (PyJson.Malformed _ _)
  | inr PyJson.TooDeep | inr PyJson.TooManyDigits => True
  end.

(** What the few-shot extractor prints for the stripped text [content]:
    [f"Raw model output:\n{content}\n"]. *)
Definition raw_output_line (content : str) : str :=
  str_of "Raw model output:" ++ nl ++ content ++ nl.

(** The prompts of the completion calls, in order. *)
Definition chat_calls (evs : list event) : list (list (str * str)) :=
  flat_map (fun e => match e with
                     | ChatCall _ _ messages => [messages]
                     | _ => []
                     end) evs.

(** The part of the zero-shot prompt before the log line. *)
Definition zero_shot_head : str :=
  join_lines
    [ [];
      str_of "    You are a log parser. For the given log line:";
      instruction_1;
      instruction_2;
      str_of "    3. Output the JSON object with two fields: "
        ++ quoted "template" ++ str_of " and " ++ quoted "variables"
        ++ str_of ".";
      [];
      str_of "    Log Line: " ].

(** The part of the few-shot prompt before the examples, and the part
    between the examples and the log line. *)
Definition few_shot_head : str :=
  join_lines
    [ [];
      str_of "    You are a log parser. For the given log line:";
      instruction_1;
      instruction_2;
      str_of "    3. Output the JSON object with two fields: "
        ++ quoted "template" ++ str_of ", " ++ quoted "variables"
        ++ str_of ", " ++ quoted "original_log" ++ str_of ".";
      [];
      str_of "    If possible, make use of the examples to improve accuracy:";
      [];
      str_of "    " ].

Definition few_shot_middle : str :=
  join_lines
    [ [];
      [];
      str_of "    Now process the following:";
      [];
      str_of "    Log Line: " ].

(** ** The response parser *)

(** What the [try]/[except] of an extractor makes of the answer of
    [json.loads]: the decoded value; the parse-error record for a
    [JSONDecodeError]; the exception itself for the two failures that
    the handler does not name. *)
Definition parse_response (answer : value + loads_error) : result value :=
  match answer with
  | inl v => Ok v
  | inr (JSONDecodeError msg) => Ok (parse_error_record msg)
  | inr NestingTooDeep => Raise RecursionError
  | inr IntegerTooLong => Raise ValueError
  end.

(** ** Texts at the limits *)

(** An integer of 4301 digits. *)
Definition long_integer : str := repeat 49%N 4301.

(** A thousand opening brackets, never closed. *)
Definition open_brackets : str := repeat 91%N 1000.

(** The one code point U+D800, a surrogate with no partner, and the
    same between double quotes, which is a JSON string.  (Neither the
    [strict] nor the [surrogateescape] handler of UTF-8 writes
    U+D800.) *)
Definition lone_surrogate : str := [55296%N].
Definition quoted_surrogate : str := dq ++ lone_surrogate ++ dq.

(** ** Rendered records *)













(** * Verification *)

(** ** Trimming *)

Section Strip.

Lemma lstrip_split (t : str) :
  exists before, t = before ++ lstrip t /\ forallb py_isspace before = true.
Proof.
  induction t as [|c r [b [E Hb]]]; simpl.
  - exists []. auto.
  - destruct (py_isspace c) eqn:Hc.
    + exists (c :: b). simpl. rewrite Hc, Hb, <- E. auto.
    + exists []. auto.
Qed.

Lemma lstrip_head (t : str) c r :
  lstrip t = c :: r -> py_isspace c = false.
Proof.
  induction t as [|d t IH]; simpl; [discriminate|].
  destruct (py_isspace d) eqn:Hd; auto.
  intros E. injection E as -> _. exact Hd.
Qed.

Lemma rstrip_split (t : str) :
  exists after, t = rstrip t ++ after /\ forallb py_isspace after = true.
Proof.
  induction t as [|c r [a [E Ha]]]; simpl.
  - exists []. auto.
  - destruct (rstrip r) as [|d r'] eqn:Hr.
    + simpl in E. subst a. destruct (py_isspace c) eqn:Hc.
      * exists (c :: r). simpl. rewrite Hc, Ha. auto.
      * exists r. auto.
    + exists a. split; [|exact Ha]. simpl. rewrite E at 1. reflexivity.
Qed.

Lemma rstrip_last (t : str) r c :
  rstrip t = r ++ [c] -> py_isspace c = false.
Proof.
  revert r. induction t as [|d t IH]; simpl; intros r E.
  - destruct r; discriminate.
  - destruct (rstrip t) as [|e t'] eqn:Ht.
    + destruct (py_isspace d) eqn:Hd.
      * destruct r; discriminate.
      * destruct r as [|x r]; simpl in E.
        -- injection E as <-. exact Hd.
        -- destruct r; discriminate.
    + destruct r as [|x r]; simpl in E; [discriminate|].
      injection E as _ E. eapply IH. exact E.
Qed.

Lemma rstrip_head (t : str) c r :
  rstrip t = c :: r -> exists r', t = c :: r'.
Proof.
  destruct t as [|d t]; simpl; [discriminate|].
  destruct (rstrip t); [destruct (py_isspace d)|]; intros E;
    try discriminate; injection E as -> _; eauto.
Qed.

Lemma strip_Trimmed (t : str) : Trimmed t (strip t).
Proof.
  unfold strip.
  destruct (lstrip_split t) as [b [Eb Hb]].
  destruct (rstrip_split (lstrip t)) as [a [Ea Ha]].
  exists b, a. repeat split; auto.
  - rewrite <- Ea. exact Eb.
  - intros c r E. destruct (rstrip_head _ E) as [r' E'].
    eapply lstrip_head. exact E'.
  - intros r c E. eapply rstrip_last. exact E.
Qed.

(** A string that neither starts nor ends with whitespace is its own
    trimming. *)
Lemma lstrip_id (s : str) :
  (forall c r, s = c :: r -> py_isspace c = false) -> lstrip s = s.
Proof.
  destruct s as [|c r]; simpl; auto.
  intros H. rewrite (H c r eq_refl). reflexivity.
Qed.

Lemma rstrip_id (s : str) :
  (forall r c, s = r ++ [c] -> py_isspace c = false) -> rstrip s = s.
Proof.
  induction s as [|d s IH]; simpl; auto.
  intros H. destruct s as [|e s].
  - simpl. rewrite (H [] d eq_refl). reflexivity.
  - rewrite IH.
    + reflexivity.
    + intros r c E. apply (H (d :: r) c). simpl. rewrite E. reflexivity.
Qed.

Lemma strip_id (s : str) :
  (forall c r, s = c :: r -> py_isspace c = false) ->
  (forall r c, s = r ++ [c] -> py_isspace c = false) ->
  strip s = s.
Proof.
  intros H1 H2. unfold strip. rewrite (lstrip_id H1). apply rstrip_id, H2.
Qed.

Lemma lstrip_spaces (b x : str) :
  forallb py_isspace b = true -> lstrip (b ++ x) = lstrip x.
Proof.
  induction b as [|c b IH]; simpl; auto.
  destruct (py_isspace c); [auto|discriminate].
Qed.

Lemma rstrip_all_spaces (a : str) :
  forallb py_isspace a = true -> rstrip a = [].
Proof.
  induction a as [|c a IH]; simpl; auto.
  destruct (py_isspace c) eqn:Hc; [|discriminate].
  intros H. rewrite (IH H). reflexivity.
Qed.

Lemma rstrip_spaces (x a : str) :
  forallb py_isspace a = true -> rstrip (x ++ a) = rstrip x.
Proof.
  intros Ha. induction x as [|c x IH]; simpl.
  - apply rstrip_all_spaces. exact Ha.
  - rewrite IH. reflexivity.
Qed.

(** Trimming has one result. *)
Lemma Trimmed_strip (t s : str) : Trimmed t s -> s = strip t.
Proof.
  intros (b & a & -> & Hb & Ha & Hhd & Hlast).
  unfold strip. rewrite lstrip_spaces by exact Hb.
  destruct s as [|c r].
  - simpl. destruct (lstrip_split a) as (b' & E & Hb').
    rewrite E, forallb_app in Ha. apply andb_prop in Ha.
    symmetry. apply rstrip_all_spaces. apply Ha.
  - rewrite (@lstrip_id ((c :: r) ++ a)).
    + rewrite rstrip_spaces by exact Ha. symmetry. apply rstrip_id.
      exact Hlast.
    + intros c' r' E. injection E as <- _. eapply Hhd. reflexivity.
Qed.

End Strip.

(** ** The placeholder pattern *)

Section Placeholder.

Lemma match_here_plus cls p' s :
  match_here ((cls, Plus) :: p') s =
  match s with
  | c :: r =>
      if accepts cls c
      then option_map S (plus_more cls (match_here p') r)
      else None
  | [] => None
  end.
Proof. reflexivity. Qed.

Lemma accepts_not_gt c :
  accepts (NotIn [gt_sign]) c = negb (c =? gt_sign)%N.
Proof. simpl. rewrite orb_false_r. reflexivity. Qed.

Let closing := match_here [(Lit gt_sign, One)].

Lemma more_finds_gt s :
  In gt_sign s ->
  exists name rest,
    s = name ++ gt_sign :: rest /\ ~ In gt_sign name /\
    plus_more (NotIn [gt_sign]) closing s = Some (S (length name)).
Proof.
  induction s as [|c r IH]; [intros []|]. intros Hin.
  destruct (N.eqb_spec c gt_sign) as [->|Hc].
  - exists [], r. repeat split; auto.
  - destruct Hin as [E|Hin]; [congruence|].
    destruct (IH Hin) as (name & rest & -> & Hn & Hm).
    exists (c :: name), rest. repeat split.
    + intros [E|E]; [congruence|auto].
    + change (plus_more (NotIn [gt_sign]) closing (c :: name ++ gt_sign :: rest))
        with (if accepts (NotIn [gt_sign]) c
              then match plus_more (NotIn [gt_sign]) closing
                           (name ++ gt_sign :: rest) with
                   | Some n => Some (S n)
                   | None => closing (c :: name ++ gt_sign :: rest)
                   end
              else closing (c :: name ++ gt_sign :: rest)).
      rewrite accepts_not_gt, Hm.
      destruct (N.eqb_spec c gt_sign); [congruence|]. reflexivity.
Qed.

Lemma more_without_gt s :
  ~ In gt_sign s -> plus_more (NotIn [gt_sign]) closing s = None.
Proof.
  induction s as [|c r IH]; intros Hn; [reflexivity|].
  change (plus_more (NotIn [gt_sign]) closing (c :: r))
    with (if accepts (NotIn [gt_sign]) c
          then match plus_more (NotIn [gt_sign]) closing r with
               | Some n => Some (S n)
               | None => closing (c :: r)
               end
          else closing (c :: r)).
  rewrite IH by (intros H; apply Hn; right; exact H).
  assert (Hc : (c =? gt_sign)%N = false).
  { apply N.eqb_neq. intros E. apply Hn. left. auto. }
  unfold closing. simpl. rewrite Hc. destruct (negb _); reflexivity.
Qed.

Lemma match_placeholder_re s :
  match_here placeholder_re s =
  match s with
  | c :: d :: r =>
      if (c =? lt_sign)%N && negb (d =? gt_sign)%N
      then option_map S (option_map S
             (plus_more (NotIn [gt_sign]) closing r))
      else None
  | _ => None
  end.
Proof.
  destruct s as [|c [|d r]]; simpl; try reflexivity.
  - destruct (c =? lt_sign)%N; reflexivity.
  - destruct (c =? lt_sign)%N; [|reflexivity].
    rewrite orb_false_r. simpl. destruct (d =? gt_sign)%N; reflexivity.
Qed.

Lemma match_placeholder_some s n :
  match_here placeholder_re s = Some n ->
  exists name rest,
    placeholder_name name /\ s = placeholder name ++ rest /\
    n = S (S (length name)).
Proof.
  rewrite match_placeholder_re.
  destruct s as [|c [|d r]]; try discriminate.
  destruct (N.eqb_spec c lt_sign) as [->|]; [|discriminate].
  destruct (N.eqb_spec d gt_sign) as [|Hd]; [discriminate|]. simpl.
  destruct (in_dec N.eq_dec gt_sign r) as [Hin|Hout].
  - destruct (more_finds_gt _ Hin) as (name & rest & -> & Hn & ->).
    simpl. intros E. injection E as <-.
    exists (d :: name), rest. repeat split.
    + discriminate.
    + intros [E|E]; [congruence|auto].
    + unfold placeholder. simpl. rewrite <- app_assoc. reflexivity.
  - rewrite (more_without_gt _ Hout). discriminate.
Qed.

Lemma match_placeholder_none s :
  match_here placeholder_re s = None -> ~ starts_with_placeholder s.
Proof.
  intros Hm (name & rest & [Hne Hn] & ->).
  destruct name as [|d name]; [congruence|].
  rewrite match_placeholder_re in Hm.
  unfold placeholder in Hm. simpl in Hm.
  assert (Hd : (d =? gt_sign)%N = false).
  { apply N.eqb_neq. intros E. apply Hn. left. auto. }
  rewrite Hd in Hm. simpl in Hm.
  destruct (@more_finds_gt ((name ++ [gt_sign]) ++ rest))
    as (n' & r' & _ & _ & E).
  { apply in_or_app. left. apply in_or_app. right. left. reflexivity. }
  rewrite E in Hm. discriminate.
Qed.

Lemma skipn_placeholder name rest :
  skipn (S (length name)) ((name ++ [gt_sign]) ++ rest) = rest.
Proof.
  induction name as [|c name IH]; simpl; auto.
Qed.

(** [re.sub] with the placeholder pattern does what [Collapsed]
    says. *)
Lemma re_sub_Collapsed (s : str) :
  Collapsed s (re_sub placeholder_re (str_of "<*>") s).
Proof.
  remember (length s) as n eqn:Hlen.
  revert s Hlen. induction n as [n IH] using lt_wf_ind. intros s Hlen.
  destruct s as [|c r].
  - simp re_sub. simpl. constructor.
  - simp re_sub.
    destruct (match_here placeholder_re (c :: r)) as [k|] eqn:Hm; simpl.
    + destruct (match_placeholder_some _ Hm)
        as (name & rest & Hname & E & ->).
      unfold placeholder in E. simpl in E. injection E as -> ->.
      rewrite skipn_placeholder.
      apply (Collapsed_placeholder Hname).
      apply (IH (length rest)); [|reflexivity].
      subst n. simpl. rewrite !length_app. simpl. lia.
    + apply Collapsed_copy.
      * apply match_placeholder_none. exact Hm.
      * apply (IH (length r)); [subst n; simpl; lia | reflexivity].
Qed.

Lemma placeholder_split_unique n1 n2 r1 r2 :
  ~ In gt_sign n1 -> ~ In gt_sign n2 ->
  n1 ++ gt_sign :: r1 = n2 ++ gt_sign :: r2 -> n1 = n2 /\ r1 = r2.
Proof.
  revert n2. induction n1 as [|a n1 IH]; intros [|b n2] H1 H2 E;
    simpl in E.
  - injection E as ->. auto.
  - injection E as <- _. exfalso. apply H2. left. reflexivity.
  - injection E as -> _. exfalso. apply H1. left. reflexivity.
  - injection E as -> E.
    destruct (IH n2) as [-> ->]; auto.
    + intros H. apply H1. right. exact H.
    + intros H. apply H2. right. exact H.
Qed.

Lemma placeholder_unique n1 n2 r1 r2 :
  placeholder_name n1 -> placeholder_name n2 ->
  placeholder n1 ++ r1 = placeholder n2 ++ r2 -> n1 = n2 /\ r1 = r2.
Proof.
  intros [_ H1] [_ H2] E. unfold placeholder in E. simpl in E.
  injection E as E. rewrite <- !app_assoc in E. simpl in E.
  eapply placeholder_split_unique; eauto.
Qed.

(** [Collapsed] determines its output. *)
Lemma Collapsed_functional s o1 o2 :
  Collapsed s o1 -> Collapsed s o2 -> o1 = o2.
Proof.
  intros H1. revert o2.
  induction H1 as [|name rest out Hname H1 IH|c rest out Hno H1 IH];
    intros o2 H2.
  - inversion H2; subst; auto.
  - remember (placeholder name ++ rest) as s eqn:Es.
    destruct H2 as [|name' rest' out' Hname' H2|c' rest' out' Hno' H2].
    + unfold placeholder in Es. discriminate.
    + destruct (placeholder_unique Hname' Hname Es) as [-> ->].
      f_equal. apply IH. exact H2.
    + exfalso. apply Hno'. exists name, rest. auto.
  - remember (c :: rest) as s eqn:Es.
    destruct H2 as [|name' rest' out' Hname' H2|c' rest' out' Hno' H2].
    + discriminate.
    + exfalso. apply Hno. exists name', rest'. auto.
    + injection Es as -> ->. f_equal. apply IH. exact H2.
Qed.

Lemma no_placeholder_Collapsed s :
  ~ has_placeholder s -> Collapsed s s.
Proof.
  induction s as [|c r IH]; intros Hno; constructor.
  - intros H. apply Hno. exists [], (c :: r). auto.
  - apply IH. intros (b & rest & H & ->). apply Hno.
    exists (c :: b), rest. auto.
Qed.

End Placeholder.

(** ** What collapsing preserves *)

Section CollapsedFacts.

Lemma Collapsed_nil s o : Collapsed s o -> (o = [] <-> s = []).
Proof.
  intros H. destruct H; split; intros E; auto; discriminate.
Qed.

Lemma Collapsed_head s o : Collapsed s o -> hd_error o = hd_error s.
Proof.
  intros H. destruct H; reflexivity.
Qed.

Lemma last_cons_cons (c : N) l d : l <> [] -> last (c :: l) d = last l d.
Proof.
  destruct l; [congruence|reflexivity].
Qed.

Lemma last_skip (l1 l2 : str) d :
  l2 <> [] -> last (l1 ++ l2) d = last l2 d.
Proof.
  intros H. induction l1 as [|c l1 IH]; simpl; auto.
  destruct (l1 ++ l2) eqn:E; auto.
  apply app_eq_nil in E. destruct E. congruence.
Qed.

Lemma Collapsed_last s o d : Collapsed s o -> last o d = last s d.
Proof.
  intros H. induction H as [|name rest out Hname H IH|c rest out Hno H IH].
  - reflexivity.
  - destruct out as [|x out].
    + assert (rest = []) as -> by (apply (Collapsed_nil H); reflexivity).
      rewrite !app_nil_r. unfold placeholder.
      change (lt_sign :: name ++ [gt_sign])
        with ((lt_sign :: name) ++ [gt_sign]).
      rewrite last_last. reflexivity.
    + assert (rest <> []).
      { intros E. apply (Collapsed_nil H) in E. discriminate. }
      rewrite (@last_skip (placeholder name) rest d) by assumption.
      rewrite (@last_skip (str_of "<*>") (x :: out) d) by discriminate.
      exact IH.
  - destruct out as [|x out].
    + assert (rest = []) as -> by (apply (Collapsed_nil H); reflexivity).
      reflexivity.
    + assert (rest <> []).
      { intros E. apply (Collapsed_nil H) in E. discriminate. }
      rewrite (@last_cons_cons c rest d) by assumption.
      rewrite (@last_cons_cons c (x :: out) d) by discriminate. exact IH.
Qed.

Lemma Collapsed_gt s o : Collapsed s o -> In gt_sign o -> In gt_sign s.
Proof.
  intros H. induction H as [|name rest out Hname H IH|c rest out Hno H IH];
    intros Hin.
  - exact Hin.
  - apply in_or_app. left. unfold placeholder. right.
    apply in_or_app. right. left. reflexivity.
  - destruct Hin as [E|Hin]; [left; exact E|right; auto].
Qed.

Lemma first_gt (l : str) :
  In gt_sign l ->
  exists a b, l = a ++ gt_sign :: b /\ ~ In gt_sign a.
Proof.
  induction l as [|c l IH]; [intros []|]. intros Hin.
  destruct (N.eq_dec c gt_sign) as [->|Hc].
  - exists [], l. auto.
  - destruct Hin as [E|Hin]; [congruence|].
    destruct (IH Hin) as (a & b & -> & Ha).
    exists (c :: a), b. split; auto.
    intros [E|E]; [congruence|auto].
Qed.

(** Where the output starts with a placeholder, so did the input. *)
Lemma Collapsed_starts c rest out :
  Collapsed rest out ->
  starts_with_placeholder (c :: out) ->
  starts_with_placeholder (c :: rest).
Proof.
  intros H (name & tl & [Hne Hn] & E).
  destruct name as [|d name]; [congruence|].
  unfold placeholder in E. simpl in E. injection E as -> ->.
  assert (Hin : In gt_sign rest).
  { apply (Collapsed_gt H). right. apply in_or_app. left.
    apply in_or_app. right. left. reflexivity. }
  pose proof (Collapsed_head H) as Hh. simpl in Hh.
  destruct (first_gt _ Hin) as (a & b & -> & Ha).
  destruct a as [|x a].
  - simpl in Hh. injection Hh as ->. exfalso. apply Hn. left. reflexivity.
  - exists (x :: a), b. split.
    + split; [discriminate|exact Ha].
    + unfold placeholder. simpl. rewrite <- app_assoc. reflexivity.
Qed.

(** The output of collapsing is a fixed point of collapsing. *)
Lemma Collapsed_fixed s o : Collapsed s o -> Collapsed o o.
Proof.
  intros H. induction H as [|name rest out Hname H IH|c rest out Hno H IH].
  - constructor.
  - change (str_of "<*>" ++ out) with (placeholder [42%N] ++ out) at 1.
    apply Collapsed_placeholder; auto.
    split; [discriminate|]. intros [E|[]]. discriminate.
  - apply Collapsed_copy; auto.
    intros Hs. apply Hno. eapply Collapsed_starts; eauto.
Qed.

Lemma Collapsed_trimmed s o :
  Collapsed s o -> strip s = s -> strip o = o.
Proof.
  intros H Hs.
  destruct (strip_Trimmed s) as (_ & _ & _ & _ & _ & Hhd & Hlast).
  rewrite Hs in Hhd, Hlast.
  apply strip_id.
  - intros c r E. pose proof (Collapsed_head H) as Hh.
    rewrite E in Hh. simpl in Hh.
    destruct s as [|c' s']; [discriminate|].
    injection Hh as ->. eapply Hhd. reflexivity.
  - intros r c E.
    assert (Hne : s <> []).
    { intros E'. apply (Collapsed_nil H) in E'. subst o.
      destruct r; discriminate. }
    pose proof (Collapsed_last 0%N H) as Hl.
    rewrite E, last_last in Hl.
    apply (Hlast (removelast s) c).
    rewrite Hl. apply app_removelast_last. exact Hne.
Qed.

Lemma strip_strip (t : str) : strip (strip t) = strip t.
Proof.
  destruct (strip_Trimmed t) as (_ & _ & _ & _ & _ & Hhd & Hlast).
  apply strip_id; assumption.
Qed.

End CollapsedFacts.

(** ** The Placeholder Normalizer *)

(** C7.  [normalize_template] first trims the whitespace around its
    argument (the one string that is its argument without the whitespace
    at its two ends); the result is the trimmed string with every
    placeholder (['<'], one or more characters other than ['>'], the first
    ['>'] after them), taken from left to right without overlap, replaced
    by [<*>], and it is the only string of which that can be said.  The
    function is total, and a trimmed string without any placeholder is
    returned as it is. *)
Theorem normalize_template_collapses (t : str) :
  (forall s, Trimmed t s <-> s = strip t) /\
  (forall out, Collapsed (strip t) out <-> out = normalize_template t) /\
  (~ has_placeholder (strip t) -> normalize_template t = strip t).
Proof.
  split; [|split].
  - intros s. split; [apply Trimmed_strip|intros ->; apply strip_Trimmed].
  - intros out. split.
    + intros H. eapply Collapsed_functional; [exact H|].
      apply re_sub_Collapsed.
    + intros ->. apply re_sub_Collapsed.
  - intros Hno. eapply Collapsed_functional.
    + apply re_sub_Collapsed.
    + apply no_placeholder_Collapsed. exact Hno.
Qed.

(** The examples of the specification. *)
Example normalize_any_vocabulary :
  normalize_template (str_of "<TIMESTAMP> <*> <IP_ADDRESS>")
  = str_of "<*> <*> <*>".
Proof. reflexivity. Qed.

Example normalize_few_shot_template :
  normalize_template
    (str_of "<TIMESTAMP> User <USERNAME> logged in from <IP_ADDRESS>")
  = str_of "<*> User <*> logged in from <*>".
Proof. reflexivity. Qed.

(** C8.  Normalising is idempotent. *)
Theorem normalize_template_idempotent (t : str) :
  normalize_template (normalize_template t) = normalize_template t.
Proof.
  unfold normalize_template.
  pose proof (re_sub_Collapsed (strip t)) as H.
  rewrite (Collapsed_trimmed H (strip_strip t)).
  eapply Collapsed_functional.
  - apply re_sub_Collapsed.
  - eapply Collapsed_fixed. exact H.
Qed.

(** ** The decoder has fuel enough *)

Section DecoderFuel.

Import PyJson.

Lemma in_budget_weaken {A} (s s' : str) (r : scanned A) :
  length s <= length s' -> in_budget s r -> in_budget s' r.
Proof.
  destruct r as [[[a rest] p]|[q|msg p| | |]]; simpl; auto. lia.
Qed.

Lemma fail_in_budget {A} (s : str) depth msg pos :
  in_budget s (@fail (A * str * nat) depth msg pos).
Proof. unfold fail. destruct (depth <? 3); exact I. Qed.

Lemma skip_ws_shorter s pos :
  length (fst (skip_ws s pos)) <= length s.
Proof.
  revert pos. induction s as [|c r IH]; intros pos; simpl; auto.
  destruct (is_ws c); simpl; [specialize (IH (S pos)); lia | lia].
Qed.

Lemma cons_char_in_budget s c r :
  in_budget s r -> in_budget s (cons_char c r).
Proof.
  destruct r as [[[a rest] p]|[q|msg p| | |]]; simpl; auto.
Qed.

Lemma scanstring_in_budget fuel depth begin s pos :
  length s < fuel -> in_budget s (scanstring fuel depth begin s pos).
Proof.
  revert s pos. induction fuel as [|fuel IH]; intros s pos Hf; [lia|].
  assert (Hrec : forall c s' pos', length s' < length s ->
                   in_budget s
                     (cons_char c (scanstring fuel depth begin s' pos'))).
  { intros c s' pos' Hl. apply cons_char_in_budget.
    apply in_budget_weaken with (s := s'); [lia|]. apply IH. lia. }
  destruct s as [|c r]; [apply fail_in_budget|].
  cbn -[skipn Nat.leb Nat.ltb is_prefix hex4 length fail].
  destruct (c =? 34)%N; [simpl; lia|].
  destruct (c =? 92)%N.
  - destruct r as [|e r2]; [apply fail_in_budget|].
    destruct (e =? 117)%N.
    + destruct (length r2 <=? 4) eqn:Hlen; [apply fail_in_budget|].
      apply Nat.leb_gt in Hlen.
      destruct (hex4 r2) as [u|]; [|apply fail_in_budget].
      assert (Hs : length (skipn 4 r2) < length (c :: e :: r2)).
      { rewrite length_skipn. simpl. lia. }
      destruct (is_high_surrogate u && (6 <? length (skipn 4 r2))
                && is_prefix [92%N; 117%N] (skipn 4 r2)).
      * destruct (hex4 (skipn 2 (skipn 4 r2))) as [u2|];
          [|apply fail_in_budget].
        destruct (is_low_surrogate u2).
        -- apply Hrec. rewrite !length_skipn. simpl. lia.
        -- apply Hrec. exact Hs.
      * apply Hrec. exact Hs.
    + destruct (unescape e); [|apply fail_in_budget]. apply Hrec. simpl. lia.
  - destruct (c <=? 31)%N; [apply fail_in_budget|]. apply Hrec. simpl. lia.
Qed.

Lemma span_digits_shorter s :
  length (snd (span_digits s)) <= length s.
Proof.
  induction s as [|c r IH]; simpl; auto.
  destruct (is_digit c); simpl; auto.
  destruct (span_digits r). simpl in *. lia.
Qed.

Lemma scan_int_shorter s ds rest :
  scan_int s = Some (ds, rest) -> length rest <= length s.
Proof.
  destruct s as [|c r]; simpl; [discriminate|].
  destruct (c =? 48)%N.
  - intros E. injection E as _ <-. lia.
  - destruct (is_digit c); [|discriminate].
    pose proof (span_digits_shorter r) as H.
    destruct (span_digits r). intros E. injection E as _ <-.
    simpl in H. lia.
Qed.

Lemma scan_frac_shorter s :
  length (snd (scan_frac s)) <= length s.
Proof.
  destruct s as [|c [|d r]]; simpl; auto.
  destruct ((c =? 46)%N && is_digit d); simpl; auto.
  pose proof (span_digits_shorter r) as H.
  destruct (span_digits r). simpl in *. lia.
Qed.

Lemma scan_exp_digits (c : N) (sign r r' : str) :
  length r' <= length r ->
  length (snd match span_digits r' with
              | ([], _) => ([], c :: r)
              | (ds, rest) => (c :: sign ++ ds, rest)
              end) <= S (length r).
Proof.
  intros Hr. pose proof (span_digits_shorter r') as H.
  destruct (span_digits r') as [[|n l] rest]; simpl in *; lia.
Qed.

Lemma scan_exp_shorter s :
  length (snd (scan_exp s)) <= length s.
Proof.
  destruct s as [|c r]; simpl; auto.
  destruct ((c =? 101)%N || (c =? 69)%N); simpl; auto.
  destruct r as [|g [|x t]].
  - apply scan_exp_digits. auto.
  - apply scan_exp_digits. auto.
  - destruct ((g =? 45)%N || (g =? 43)%N).
    + apply scan_exp_digits. simpl. lia.
    + apply scan_exp_digits. auto.
Qed.

Lemma match_number_in_budget s pos : in_budget s (match_number s pos).
Proof.
  unfold match_number.
  set (start := match s with
                | c :: r => if (c =? 45)%N then (true, r) else (false, s)
                | [] => (false, s)
                end).
  assert (H1 : length (snd start) <= length s).
  { subst start. destruct s as [|c r]; simpl; auto.
    destruct (c =? 45)%N; simpl; lia. }
  destruct start as [neg s1]. simpl in H1.
  destruct (scan_int s1) as [[ds s2]|] eqn:Hi; [|exact I].
  apply scan_int_shorter in Hi.
  pose proof (scan_frac_shorter s2) as H3.
  destruct (scan_frac s2) as [frac s3]. simpl in H3.
  pose proof (scan_exp_shorter s3) as H4.
  destruct (scan_exp s3) as [exp s4]. simpl in H4.
  destruct frac, exp; try (simpl; lia).
  destruct (int_max_str_digits <? length ds); simpl; [exact I | lia].
Qed.

Lemma match_word_shorter name s r :
  match_word name s = Some r -> length r <= length s.
Proof.
  unfold match_word. destruct (is_prefix _ s); [|discriminate].
  intros E. injection E as <-. rewrite length_skipn. lia.
Qed.

Lemma constant_in_budget s depth name r pos :
  length r <= length s -> in_budget s (constant depth name r pos).
Proof. intros H. destruct depth; simpl; [exact I|exact H]. Qed.

Lemma scan_constant_in_budget depth s pos :
  in_budget s (scan_constant depth s pos).
Proof.
  unfold scan_constant.
  repeat match goal with
         | |- context [match_word ?w s] =>
             let H := fresh "H" in
             destruct (match_word w s) eqn:H;
             [apply match_word_shorter in H;
              first [exact H | apply constant_in_budget; exact H]|]
         end.
  apply match_number_in_budget.
Qed.

Lemma scan_in_budget fuel :
  (forall depth s pos, 2 * length s + 1 <= fuel ->
                       in_budget s (scan_once fuel depth s pos)) /\
  (forall depth acc s pos, 2 * length s + 1 <= fuel ->
                           in_budget s (members fuel depth acc s pos)) /\
  (forall depth acc s pos, 2 * length s + 2 <= fuel ->
                           in_budget s (elements fuel depth acc s pos)).
Proof.
  induction fuel as [|fuel (IHs & IHm & IHe)].
  - repeat split; intros; lia.
  - split; [|split].
    + intros depth s pos Hf. destruct s as [|c r]; [exact I|].
      cbn -[scanstring skip_ws members elements scan_constant Nat.mul].
      destruct (c =? 34)%N.
      { pose proof (@scanstring_in_budget (S (length r)) depth pos r (S pos)
                      (Nat.lt_succ_diag_r _)) as H.
        destruct (scanstring _ _ _ r _) as [[[t rest] p]|[q|msg p| | |]];
          simpl in *; auto. }
      destruct (c =? 123)%N.
      { destruct depth as [|depth]; [exact I|].
        pose proof (skip_ws_shorter r (S pos)) as H.
        destruct (skip_ws r (S pos)) as [r1 p1]. simpl in H.
        assert (Hm : in_budget (c :: r) (members fuel depth [] r1 p1)).
        { apply in_budget_weaken with (s := r1); [simpl; lia|].
          apply IHm. simpl in Hf. lia. }
        destruct r1 as [|c1 r2]; [exact Hm|].
        destruct (c1 =? 125)%N; [simpl in *; lia|exact Hm]. }
      destruct (c =? 91)%N.
      { destruct depth as [|depth]; [exact I|].
        pose proof (skip_ws_shorter r (S pos)) as H.
        destruct (skip_ws r (S pos)) as [r1 p1]. simpl in H.
        assert (Hm : in_budget (c :: r) (elements fuel depth [] r1 p1)).
        { apply in_budget_weaken with (s := r1); [simpl; lia|].
          apply IHe. simpl in Hf. lia. }
        destruct r1 as [|c1 r2]; [exact Hm|].
        destruct (c1 =? 93)%N; [simpl in *; lia|exact Hm]. }
      apply scan_constant_in_budget.
    + intros depth acc s pos Hf.
      destruct s as [|c r]; [apply fail_in_budget|].
      cbn -[scanstring skip_ws scan_once dict_set Nat.mul fail].
      destruct (c =? 34)%N; [|apply fail_in_budget].
      pose proof (@scanstring_in_budget (S (length r)) depth pos r (S pos)
                    (Nat.lt_succ_diag_r _)) as H1.
      destruct (scanstring _ _ _ r _) as [[[key r1] p1]|[q|msg p| | |]];
        simpl in H1; auto.
      pose proof (skip_ws_shorter r1 p1) as H2.
      destruct (skip_ws r1 p1) as [r2 p2]. simpl in H2.
      destruct r2 as [|c2 r3]; [apply fail_in_budget|].
      destruct (c2 =? 58)%N; [|apply fail_in_budget].
      pose proof (skip_ws_shorter r3 (S p2)) as H4.
      destruct (skip_ws r3 (S p2)) as [r4 p4]. simpl in H2, H4.
      assert (H5 : in_budget r4 (scan_once fuel depth r4 p4)).
      { apply IHs. simpl in Hf. lia. }
      destruct (scan_once fuel depth r4 p4) as [[[v r5] p5]|[q|msg p| | |]];
        simpl in H5; auto.
      pose proof (skip_ws_shorter r5 p5) as H6.
      destruct (skip_ws r5 p5) as [r6 p6]. simpl in H6.
      destruct r6 as [|c6 r7]; [apply fail_in_budget|]. simpl in H6.
      destruct (c6 =? 125)%N; [simpl; lia|].
      destruct (c6 =? 44)%N; [|apply fail_in_budget].
      pose proof (skip_ws_shorter r7 (S p6)) as H8.
      destruct (skip_ws r7 (S p6)) as [r8 p8]. simpl in H8.
      apply in_budget_weaken with (s := r8); [simpl; lia|].
      apply IHm. simpl in Hf. lia.
    + intros depth acc s pos Hf.
      cbn -[skip_ws scan_once Nat.mul fail].
      assert (H1 : in_budget s (scan_once fuel depth s pos))
        by (apply IHs; lia).
      destruct (scan_once fuel depth s pos) as [[[v r1] p1]|[q|msg p| | |]];
        simpl in H1; auto.
      pose proof (skip_ws_shorter r1 p1) as H2.
      destruct (skip_ws r1 p1) as [r2 p2]. simpl in H2.
      destruct r2 as [|c2 r3]; [apply fail_in_budget|]. simpl in H2.
      destruct (c2 =? 93)%N; [simpl; lia|].
      destruct (c2 =? 44)%N; [|apply fail_in_budget].
      pose proof (skip_ws_shorter r3 (S p2)) as H4.
      destruct (skip_ws r3 (S p2)) as [r4 p4]. simpl in H4.
      apply in_budget_weaken with (s := r4); [lia|].
      apply IHe. lia.
Qed.

(** A scan with enough fuel, followed by the check that nothing but
    whitespace is left, does not run out of fuel. *)
Lemma decode_body_has_fuel (depth : nat) (s : str) :
  (let (s1, p1) := skip_ws s 0 in
   match scan_once (2 * length s + 1) depth s1 p1 with
   | inr (NoValue pos) => fail (depth + 1) "Expecting value" pos
   | inr e => inr e
   | inl (v, r, p) =>
       match skip_ws r p with
       | ([], _) => inl v
       | (_ :: _, p') => fail (depth + 2) "Extra data" p'
       end
   end) <> inr OutOfFuel.
Proof.
  pose proof (skip_ws_shorter s 0) as H0.
  destruct (skip_ws s 0) as [s1 p1]. simpl in H0.
  pose proof (proj1 (scan_in_budget (2 * length s + 1)) depth s1 p1) as H1.
  destruct (scan_once _ depth s1 p1) as [[[v r] p]|[q|msg p| | |]];
    try discriminate.
  - destruct (skip_ws r p) as [[|x r'] p']; [discriminate|].
    unfold fail. destruct (depth + 2 <? 3); discriminate.
  - unfold fail. destruct (depth + 1 <? 3); discriminate.
  - intros _. apply H1. lia.
Qed.

(** The fuel [loads] gives to [decode] is enough for every input. *)
Lemma decode_has_fuel (depth : nat) (s : str) :
  decode (2 * length s + 1) depth s <> inr OutOfFuel.
Proof.
  pose proof (decode_body_has_fuel depth s) as H.
  unfold decode.
  destruct s as [|c r]; [exact H|].
  destruct c as [|p]; [exact H|].
  destruct (Pos.eq_dec p 65279) as [->|Hp]; [discriminate|].
  intros E. apply H. rewrite <- E. clear - Hp.
  repeat (destruct p as [p|p|]; try reflexivity); congruence.
Qed.

(** [loads] is [decode] with its failure named: the decoder never runs
    out of fuel, so [loads] reports too deep a nesting only where the
    decoder met one. *)
Lemma loads_is_decode (depth : nat) (s : str) :
  match decode (2 * length s + 1) depth s with
  | inl v => loads depth s = inl v
  | inr (Malformed msg pos) =>
      loads depth s = inr (JSONDecodeError (describe s msg pos))
  | inr (NoValue pos) =>
      loads depth s = inr (JSONDecodeError (describe s "Expecting value" pos))
  | inr TooDeep => loads depth s = inr NestingTooDeep
  | inr TooManyDigits => loads depth s = inr IntegerTooLong
  | inr OutOfFuel => False
  end.
Proof.
  pose proof (decode_has_fuel depth s) as H. unfold loads.
  destruct (decode (2 * length s + 1) depth s) as [v|[q|msg pos| | |]];
    try reflexivity. apply H. reflexivity.
Qed.

End DecoderFuel.

(** ** The extractors *)

Section Extractors.

Context {W F : Type} {client : OpenAI W F} {json : JsonDecoder}
  {stdout : Stdout}.

Let zero_shot_call (log_line : str) :=
  chat_completions_create (str_of "gpt-4") 0%Z
    [(str_of "user", zero_shot_prompt log_line)].

Let few_shot_call (log_line examples : str) :=
  chat_completions_create (str_of "gpt-4") 0%Z
    [(str_of "user", few_shot_prompt log_line examples)].

Lemma zero_shot_result log_line w w' response text :
  zero_shot_call log_line w = (inr response, w') ->
  raw_text response = Some text ->
  res (extract_template_and_variables log_line w)
  = parse_response (json_loads (strip text)).
Proof.
  unfold zero_shot_call. intros Hc Ht. run_program. rewrite Hc. simpl.
  destruct (choices response) as [[|choice rest]|]; try discriminate.
  simpl. rewrite Ht. simpl.
  destruct (json_loads (strip text)) as [v|[msg| |]]; reflexivity.
Qed.

Lemma few_shot_result log_line examples w w' response text :
  few_shot_call log_line examples w = (inr response, w') ->
  raw_text response = Some text ->
  res (extract_template_and_variables_fewshot log_line examples w)
  = if encodable (raw_output_line (strip text))
    then parse_response (json_loads (strip text))
    else Raise UnicodeEncodeError.
Proof.
  unfold few_shot_call, raw_output_line. intros Hc Ht. run_program.
  rewrite Hc. simpl.
  destruct (choices response) as [[|choice rest]|]; try discriminate.
  simpl. rewrite Ht. simpl.
  destruct (encodable _); [|reflexivity].
  destruct (json_loads (strip text)) as [v|[msg| |]]; reflexivity.
Qed.

Lemma zero_shot_failure log_line w w' why :
  zero_shot_call log_line w = (inl why, w') ->
  extract_template_and_variables log_line w =
  Outcome (Raise (APIError why)) w'
    [ChatCall (str_of "gpt-4") 0 [(str_of "user", zero_shot_prompt log_line)]].
Proof.
  unfold zero_shot_call. intros Hc. run_program. rewrite Hc. reflexivity.
Qed.

Lemma few_shot_failure log_line examples w w' why :
  few_shot_call log_line examples w = (inl why, w') ->
  extract_template_and_variables_fewshot log_line examples w =
  Outcome (Raise (APIError why)) w'
    [ChatCall (str_of "gpt-4") 0
       [(str_of "user", few_shot_prompt log_line examples)]].
Proof.
  unfold few_shot_call. intros Hc. run_program. rewrite Hc. reflexivity.
Qed.

End Extractors.

(** C1 as stated fails: a text that does not decode can make the
    extractors raise.  [json.loads] fails on an integer of 4301 digits
    with [ValueError] and on a thousand open brackets with
    [RecursionError], and the handler names neither; and the few-shot
    extractor prints the text before it decodes it, so that on a text
    standard output cannot encode it raises [UnicodeEncodeError], where
    the zero-shot extractor returns the parse-error record. *)
Lemma undecodable_text_can_raise :
  let zero text :=
    res (@extract_template_and_variables script Z scripted_client
           python_json sample_log (Script [inr (completion text)] [])) in
  let few text :=
    res (@extract_template_and_variables_fewshot script Z scripted_client
           python_json utf8_strict sample_log FEW_SHOT_EXAMPLES
           (Script [inr (completion text)] [])) in
  zero long_integer = Raise ValueError /\
  few long_integer = Raise ValueError /\
  zero open_brackets = Raise RecursionError /\
  few open_brackets = Raise RecursionError /\
  zero lone_surrogate
  = Ok (parse_error_record
          (str_of "Expecting value: line 1 column 1 (char 0)")) /\
  few lone_surrogate = Raise UnicodeEncodeError.
Proof.
  vm_compute. repeat split.
Qed.

(** C1, amended.  When [json.loads] fails on the text of the
    completion, what the extractors do depends on the failure.  A
    [JSONDecodeError] is caught: the result is the record with template
    [<PARSE_ERROR>], no variables and the description of the error.  A
    [RecursionError] or a [ValueError] is not caught and is raised to
    the caller.  The few-shot extractor does so only when it could
    print the text; otherwise it has raised [UnicodeEncodeError]
    before decoding. *)
Theorem decode_failure_gives_parse_error_record
    {W F : Type} (client : OpenAI W F) (json : JsonDecoder)
    (stdout : Stdout) (text : str) (failure : loads_error) :
  json_loads (strip text) = inr failure ->
  let outcome :=
    match failure with
    | JSONDecodeError msg => Ok (parse_error_record msg)
    | NestingTooDeep => Raise RecursionError
    | IntegerTooLong => Raise ValueError
    end in
  (forall log_line w w' response,
      chat_completions_create gpt_4 0%Z
        [(user, zero_shot_prompt log_line)] w = (inr response, w') ->
      raw_text response = Some text ->
      res (extract_template_and_variables log_line w) = outcome)
  /\
  (forall log_line examples w w' response,
      chat_completions_create gpt_4 0%Z
        [(user, few_shot_prompt log_line examples)] w = (inr response, w') ->
      raw_text response = Some text ->
      res (extract_template_and_variables_fewshot log_line examples w)
      = if encodable (raw_output_line (strip text))
        then outcome
        else Raise UnicodeEncodeError).
Proof.
  intros Hd outcome. split.
  - intros log_line w w' response Hc Ht.
    rewrite (zero_shot_result _ _ Hc Ht), Hd. reflexivity.
  - intros log_line examples w w' response Hc Ht.
    rewrite (few_shot_result _ _ _ Hc Ht), Hd. reflexivity.
Qed.

Lemma decode_failure_gives_parse_error_record_witness :
  res (@extract_template_and_variables script Z scripted_client python_json
         sample_log (Script [inr (completion truncated_text)] []))
  = Ok (parse_error_record
          (str_of "Expecting ',' delimiter: line 1 column 17 (char 16)")).
Proof.
  refine (proj1 (@decode_failure_gives_parse_error_record
                   script Z scripted_client python_json utf8_strict
                   truncated_text
                   (JSONDecodeError
                      (str_of "Expecting ',' delimiter: line 1 column 17 (char 16)"))
                   _)
            sample_log (Script [inr (completion truncated_text)] [])
            (Script [] []) (completion truncated_text) _ _);
    reflexivity.
Defined.

(** C3 as stated fails: a completion call that times out makes the
    extractor raise; no record is returned. *)
Lemma completion_timeout_is_raised :
  let zero := @extract_template_and_variables script Z scripted_client
                python_json sample_log (Script [inl Timeout] []) in
  let few := @extract_template_and_variables_fewshot script Z
               scripted_client python_json utf8_strict sample_log
               FEW_SHOT_EXAMPLES (Script [inl Timeout] []) in
  res zero = Raise (APIError Timeout) /\
  res few = Raise (APIError Timeout) /\
  ~ (exists record, res zero = Ok record) /\
  ~ (exists record, res few = Ok record).
Proof.
  repeat split; try reflexivity; intros [record H]; discriminate H.
Qed.

(** C3, amended.  When the completion call fails, for whatever reason,
    both extractors raise the failure to their caller after that one
    call: no record is built and nothing is printed. *)
Theorem completion_failure_propagates
    {W F : Type} (client : OpenAI W F) (json : JsonDecoder)
    (stdout : Stdout) (why : api_failure) :
  (forall log_line w w',
      chat_completions_create gpt_4 0%Z
        [(user, zero_shot_prompt log_line)] w = (inl why, w') ->
      extract_template_and_variables log_line w
      = Outcome (Raise (APIError why)) w'
          [ChatCall gpt_4 0 [(user, zero_shot_prompt log_line)]])
  /\
  (forall log_line examples w w',
      chat_completions_create gpt_4 0%Z
        [(user, few_shot_prompt log_line examples)] w = (inl why, w') ->
      extract_template_and_variables_fewshot log_line examples w
      = Outcome (Raise (APIError why)) w'
          [ChatCall gpt_4 0 [(user, few_shot_prompt log_line examples)]]).
Proof.
  split.
  - intros log_line w w' Hc. apply zero_shot_failure. exact Hc.
  - intros log_line examples w w' Hc. apply few_shot_failure. exact Hc.
Qed.

(** C5 as stated fails: a field the program does not know is kept in the
    result, and a missing [variables] field stays missing. *)
Lemma unknown_field_is_kept :
  let o := @extract_template_and_variables script Z scripted_client
             python_json sample_log
             (Script [inr (completion extra_field_text)] []) in
  exists d,
    res o = Ok (VDict d) /\
    dict_get (str_of "extra") d = Some (VInt 1) /\
    dict_get (str_of "variables") d = None.
Proof.
  exists [(str_of "template", VStr (str_of "x")); (str_of "extra", VInt 1)].
  repeat split.
Qed.

(** C5, amended.  When the text of the completion decodes, the
    zero-shot extractor returns the decoded value itself: every field of
    it, known or not, and no field that was not in the text.  So does
    the few-shot extractor when it could print the text; when standard
    output cannot encode the text it raises [UnicodeEncodeError] and
    returns nothing. *)
Theorem decoded_value_is_returned_unchanged
    {W F : Type} (client : OpenAI W F) (json : JsonDecoder)
    (stdout : Stdout) (text : str) (v : value) :
  json_loads (strip text) = inl v ->
  (forall log_line w w' response,
      chat_completions_create gpt_4 0%Z
        [(user, zero_shot_prompt log_line)] w = (inr response, w') ->
      raw_text response = Some text ->
      res (extract_template_and_variables log_line w) = Ok v)
  /\
  (forall log_line examples w w' response,
      chat_completions_create gpt_4 0%Z
        [(user, few_shot_prompt log_line examples)] w = (inr response, w') ->
      raw_text response = Some text ->
      res (extract_template_and_variables_fewshot log_line examples w)
      = if encodable (raw_output_line (strip text))
        then Ok v
        else Raise UnicodeEncodeError).
Proof.
  intros Hd. split.
  - intros log_line w w' response Hc Ht.
    rewrite (zero_shot_result _ _ Hc Ht), Hd. reflexivity.
  - intros log_line examples w w' response Hc Ht.
    rewrite (few_shot_result _ _ _ Hc Ht), Hd. reflexivity.
Qed.

Lemma decoded_value_is_returned_unchanged_witness :
  res (@extract_template_and_variables_fewshot script Z scripted_client
         python_json utf8_strict sample_log FEW_SHOT_EXAMPLES
         (Script [inr (completion extra_field_text)] []))
  = Ok (VDict [ (str_of "template", VStr (str_of "x"));
                (str_of "extra", VInt 1) ]).
Proof.
  refine (proj2 (@decoded_value_is_returned_unchanged
                   script Z scripted_client python_json utf8_strict
                   extra_field_text
                   (VDict [ (str_of "template", VStr (str_of "x"));
                            (str_of "extra", VInt 1) ]) _)
            sample_log FEW_SHOT_EXAMPLES
            (Script [inr (completion extra_field_text)] [])
            (Script [] []) (completion extra_field_text) _ _);
    reflexivity.
Defined.

Lemma completion_failure_propagates_witness :
  @extract_template_and_variables script Z scripted_client python_json
    sample_log (Script [inl RateLimited] [])
  = Outcome (Raise (APIError RateLimited)) (Script [] [])
      [ChatCall gpt_4 0 [(user, zero_shot_prompt sample_log)]].
Proof.
  refine (proj1 (@completion_failure_propagates
                   script Z scripted_client python_json utf8_strict
                   RateLimited)
            sample_log (Script [inl RateLimited] []) (Script [] []) _).
  reflexivity.
Defined.

(** C10 as stated fails: on the same completion, whose text is the JSON
    string that holds a single surrogate, the zero-shot extractor
    returns the decoded string and the few-shot extractor raises
    [UnicodeEncodeError] at its [print]. *)
Lemma unprintable_text_splits_the_extractors :
  let same := completion quoted_surrogate in
  let zero := @extract_template_and_variables script Z scripted_client
                python_json sample_log (Script [inr same] []) in
  let few := @extract_template_and_variables_fewshot script Z
               scripted_client python_json utf8_strict sample_log
               FEW_SHOT_EXAMPLES (Script [inr same] []) in
  res zero = Ok (VStr lone_surrogate) /\
  res few = Raise UnicodeEncodeError /\
  res zero <> res few.
Proof.
  vm_compute. repeat split. discriminate.
Qed.

(** C10, amended.  Given the same completion, the zero-shot extractor
    returns what the response parser makes of the stripped text: the
    decoded value, the parse-error record for a [JSONDecodeError], or
    the exception [json.loads] raised otherwise.  The few-shot
    extractor returns the same when standard output can encode the
    text it prints, and raises [UnicodeEncodeError] when it cannot.
    On a completion without text both raise the same exception. *)
Theorem extractors_agree
    {W F : Type} (client : OpenAI W F) (json : JsonDecoder)
    (stdout : Stdout)
    (log_line log_line' examples : str) (w w1 w' w1' : W)
    (response : ChatCompletion) :
  chat_completions_create gpt_4 0%Z
    [(user, zero_shot_prompt log_line)] w = (inr response, w1) ->
  chat_completions_create gpt_4 0%Z
    [(user, few_shot_prompt log_line' examples)] w' = (inr response, w1') ->
  let zero := res (extract_template_and_variables log_line w) in
  let few :=
    res (extract_template_and_variables_fewshot log_line' examples w') in
  (forall text,
      raw_text response = Some text ->
      zero = parse_response (json_loads (strip text)) /\
      few = if encodable (raw_output_line (strip text))
            then zero
            else Raise UnicodeEncodeError)
  /\
  (raw_text response = None -> zero = few /\ exists e, zero = Raise e).
Proof.
  intros Hz Hf zero few. subst zero few. split.
  - intros text Ht.
    rewrite (zero_shot_result _ _ Hz Ht), (few_shot_result _ _ _ Hf Ht).
    split; reflexivity.
  - intros Ht. run_program. unfold gpt_4, user in *. rewrite Hz, Hf. simpl.
    destruct (choices response) as [[|choice rest]|]; simpl;
      try (split; [reflexivity|eexists; reflexivity]).
    rewrite Ht. simpl. split; [reflexivity|eexists; reflexivity].
Qed.

Lemma extractors_agree_witness :
  res (@extract_template_and_variables_fewshot script Z scripted_client
         python_json utf8_strict sample_log FEW_SHOT_EXAMPLES
         (Script [inr (completion truncated_text)] []))
  = res (@extract_template_and_variables script Z scripted_client
           python_json sample_log
           (Script [inr (completion truncated_text)] [])).
Proof.
  refine (proj2 (proj1 (@extractors_agree script Z scripted_client
                          python_json utf8_strict
                          sample_log sample_log FEW_SHOT_EXAMPLES
                          (Script [inr (completion truncated_text)] [])
                          (Script [] [])
                          (Script [inr (completion truncated_text)] [])
                          (Script [] [])
                          (completion truncated_text) _ _)
                   truncated_text _));
    reflexivity.
Defined.

(** ** Rendered records *)

Section RenderedRecords.

Import PyJson.





















End RenderedRecords.




(** ** The Embedding Generator *)

Section Embedding.

Context {W F : Type} {client : OpenAI W F}.

Lemma get_embedding_run (text : str) (w : W) :
  get_embedding text w =
  let (answer, w') := embeddings_create embedding_model [text] w in
  Outcome
    match answer with
    | inl why => Raise (APIError why)
    | inr response =>
        match data response with
        | item :: _ => Ok (embedding item)
        | [] => Raise IndexError
        end
    end
    w' [EmbedCall embedding_model [text]].
Proof.
  run_program. unfold embedding_model.
  destruct (embeddings_create _ _ w) as [[why|response] w1]; simpl.
  - reflexivity.
  - destruct (data response); simpl; rewrite ?app_nil_r; reflexivity.
Qed.

Lemma get_embedding_events (text : str) (w : W) :
  events (get_embedding text w) = [EmbedCall embedding_model [text]].
Proof.
  rewrite get_embedding_run.
  destruct (embeddings_create _ _ w). reflexivity.
Qed.

End Embedding.

(** C9.  [get_embedding] makes one call to the embedding service, with
    the one-item batch that holds its argument.  It returns the first
    vector of the answer as it is.  A failure of the call is raised to
    the caller, and so is the failure to find a first vector in an answer
    with none; nothing is caught. *)
Theorem get_embedding_calls_once_and_propagates
    {W F : Type} (client : OpenAI W F) (text : str) (w : W) :
  get_embedding text w =
  let (answer, w') := embeddings_create embedding_model [text] w in
  Outcome
    match answer with
    | inl why => Raise (APIError why)
    | inr response =>
        match data response with
        | item :: _ => Ok (embedding item)
        | [] => Raise IndexError
        end
    end
    w' [EmbedCall embedding_model [text]].
Proof.
  apply get_embedding_run.
Qed.

(** ** The Pipeline Driver *)

Section Driver.

Context {W F : Type} {client : OpenAI W F} {json : JsonDecoder}
  {stdout : Stdout}.

(** The few-shot extractor calls the completion service and prints the
    raw text; it announces no line, prints no record and asks for no
    embedding. *)
Lemma few_shot_events log_line examples (w : W) :
  let evs :=
    events (extract_template_and_variables_fewshot log_line examples w) in
  processed evs = [] /\ parsed_results evs = [] /\ embed_calls evs = [].
Proof.
  run_program.
  destruct (chat_completions_create _ _ _ w) as [[why|response] w1];
    simpl; auto.
  destruct (choices response) as [[|choice rest]|]; simpl; auto.
  destruct (content (message choice)) as [text|]; simpl; auto.
  destruct (encodable _); simpl; auto.
  destruct (json_loads (strip text)) as [v|[msg| |]]; simpl; auto.
Qed.

(** One turn of the loop, step by step. *)
Lemma main_body_run (log : str) (w : W) :
  let o1 := extract_template_and_variables_fewshot log FEW_SHOT_EXAMPLES w in
  let header := Print (processing_header ++ log) in
  main_body log w =
  match res o1 with
  | Raise e => Outcome (Raise e) (world o1) (header :: events o1)
  | Ok record =>
      let printed :=
        header :: events o1 ++ [PrintJson parsed_label record] in
      match py_contains (str_of "template") record with
      | Raise e => Outcome (Raise e) (world o1) printed
      | Ok false => Outcome (Ok tt) (world o1) printed
      | Ok true =>
          match py_getitem record (str_of "template") with
          | Raise e => Outcome (Raise e) (world o1) printed
          | Ok template =>
              match normalize_template_of template with
              | Raise e => Outcome (Raise e) (world o1) printed
              | Ok text =>
                  let o2 := get_embedding text (world o1) in
                  match res o2 with
                  | Raise e =>
                      Outcome (Raise e) (world o2) (printed ++ events o2)
                  | Ok vector =>
                      Outcome (Ok tt) (world o2)
                        (printed ++ events o2
                           ++ [Print (str_of "Embedding length: "
                                      ++ decimal (length vector))])
                  end
              end
          end
      end
  end.
Proof.
  intros o1 header. unfold main_body.
  cbv beta iota zeta delta [bind emit lift ret res world events].
  fold o1. destruct o1 as [r1 w1 ev1].
  cbv beta iota zeta delta [res world events].
  change (nl ++ str_of "--- Processing log ---" ++ nl ++ log)
    with (processing_header ++ log).
  fold header.
  destruct r1 as [record|e]; [|reflexivity].
  change (str_of "Parsed result:") with parsed_label.
  destruct (py_contains (str_of "template") record) as [[|]|e].
  - destruct (py_getitem record (str_of "template")) as [template|e].
    + destruct (normalize_template_of template) as [text|e].
      * destruct (get_embedding text w1) as [r2 w2 ev2].
        destruct r2 as [vector|e]; simpl;
          rewrite ?app_nil_r, <- ?app_assoc; reflexivity.
      * simpl. rewrite ?app_nil_r, <- ?app_assoc. reflexivity.
    + simpl. rewrite ?app_nil_r, <- ?app_assoc. reflexivity.
  - simpl. rewrite ?app_nil_r, <- ?app_assoc. reflexivity.
  - simpl. rewrite ?app_nil_r, <- ?app_assoc. reflexivity.
Qed.

End Driver.

Section DriverFacts.

Context {W F : Type} {client : OpenAI W F} {json : JsonDecoder}
  {stdout : Stdout}.

Lemma announced_header (log : str) :
  announced (Print (processing_header ++ log)) = [log].
Proof. reflexivity. Qed.

Lemma processed_app a b : processed (a ++ b) = processed a ++ processed b.
Proof. apply flat_map_app. Qed.

Lemma parsed_results_app a b :
  parsed_results (a ++ b) = parsed_results a ++ parsed_results b.
Proof. apply flat_map_app. Qed.

Lemma embed_calls_app a b :
  embed_calls (a ++ b) = embed_calls a ++ embed_calls b.
Proof. apply flat_map_app. Qed.

(** What the events of one turn of the loop amount to. *)
Lemma main_body_summary (log : str) (w : W) :
  let o1 := extract_template_and_variables_fewshot log FEW_SHOT_EXAMPLES w in
  let o := main_body log w in
  processed (events o) = [log] /\
  parsed_results (events o)
  = match res o1 with Ok record => [record] | Raise _ => [] end /\
  embed_calls (events o)
  = match res o1 with
    | Ok record =>
        match embedded_template record with
        | Some s => [[normalize_template s]]
        | None => []
        end
    | Raise _ => []
    end /\
  (forall u, res o = Ok u -> exists record, res o1 = Ok record).
Proof.
  intros o1 o. subst o. rewrite main_body_run. fold o1.
  destruct (few_shot_events log FEW_SHOT_EXAMPLES w) as (P1 & R1 & E1).
  fold o1 in P1, R1, E1.
  assert (Hhead : forall tail,
             processed (Print (processing_header ++ log) :: tail)
             = log :: processed tail) by reflexivity.
  assert (Hr : forall tail,
             parsed_results (Print (processing_header ++ log) :: tail)
             = parsed_results tail) by reflexivity.
  assert (He : forall tail,
             embed_calls (Print (processing_header ++ log) :: tail)
             = embed_calls tail) by reflexivity.
  destruct (res o1) as [record|e]; cbv zeta.
  2:{ simpl events. rewrite Hhead, Hr, He, P1, R1, E1.
      repeat split. intros u Hu. discriminate Hu. }
  assert (Hdone :
    processed
      (Print (processing_header ++ log)
         :: events o1 ++ [PrintJson parsed_label record]) = [log] /\
    parsed_results
      (Print (processing_header ++ log)
         :: events o1 ++ [PrintJson parsed_label record]) = [record] /\
    embed_calls
      (Print (processing_header ++ log)
         :: events o1 ++ [PrintJson parsed_label record]) = []).
  { rewrite Hhead, Hr, He, processed_app, parsed_results_app,
      embed_calls_app, P1, R1, E1. repeat split. }
  destruct Hdone as (Pd & Rd & Ed).
  assert (Hstop : forall (r : result unit) (w' : W),
    embedded_template record = None ->
    let o := Outcome r w'
               (Print (processing_header ++ log)
                  :: events o1 ++ [PrintJson parsed_label record]) in
    processed (events o) = [log] /\
    parsed_results (events o) = [record] /\
    embed_calls (events o)
    = match embedded_template record with
      | Some s => [[normalize_template s]]
      | None => []
      end /\
    (forall u, res o = Ok u -> exists record', Ok record = Ok record')).
  { intros r w' Hn. simpl. rewrite Hn. repeat split; auto.
    intros; eexists; reflexivity. }
  destruct record as [| b | z | f | s | l | d]; simpl py_contains;
    try (apply Hstop; reflexivity).
  - destruct (is_substring (str_of "template") s);
      apply Hstop; reflexivity.
  - destruct (existsb _ l); apply Hstop; reflexivity.
  - unfold dict_has, embedded_template in *.
    simpl py_getitem.
    destruct (dict_get (str_of "template") d) as [template|] eqn:Hg.
    + destruct template as [| b | z | f | s | l | d'];
        simpl normalize_template_of; try (apply Hstop; reflexivity).
      cbv beta iota zeta.
      pose proof (get_embedding_events (normalize_template s) (world o1))
        as Hev.
      destruct (get_embedding (normalize_template s) (world o1))
        as [r2 w2 ev2].
      simpl in Hev. subst ev2.
      destruct r2 as [vector|e]; cbn [events res];
        rewrite ?processed_app, ?parsed_results_app, ?embed_calls_app,
          Pd, Rd, Ed;
        repeat split; intros; try discriminate; eexists; reflexivity.
    + apply Hstop; reflexivity.
Qed.

End DriverFacts.

(** C2 as stated fails: for a completion that does not decode, the record
    carries a parse error, and the driver still asks for an embedding, of
    the normalised template [<*>]. *)
Lemma parse_error_record_is_embedded :
  let o := @main_body script Z scripted_client python_json utf8_strict sample_log
             (Script [inr (completion malformed_text)]
                     [inr (one_vector [1; 2; 3]%Z)]) in
  res o = Ok tt /\
  parsed_results (events o)
  = [parse_error_record
       (str_of "Expecting value: line 1 column 1 (char 0)")] /\
  embed_calls (events o) = [[str_of "<*>"]].
Proof.
  vm_compute. repeat split.
Qed.

(** C2, amended.  For every line, the driver asks for an embedding
    exactly when the extractor returned a [dict] that has a [str] under
    the key ["template"]; it then makes one call, with the normalised
    template.  Whether the record carries an error, and whether the
    template is empty, plays no part: the parse-error record has the
    template [<PARSE_ERROR>] and is embedded as [<*>]. *)
Theorem embedding_requested_iff_template_present
    {W F : Type} (client : OpenAI W F) (json : JsonDecoder)
    (stdout : Stdout)
    (log : str) (w : W) :
  embed_calls (events (main_body log w))
  = match res (extract_template_and_variables_fewshot
                 log FEW_SHOT_EXAMPLES w) with
    | Ok record =>
        match embedded_template record with
        | Some template => [[normalize_template template]]
        | None => []
        end
    | Raise _ => []
    end
  /\
  (forall msg,
      embedded_template (parse_error_record msg)
      = Some (str_of "<PARSE_ERROR>")) /\
  normalize_template (str_of "<PARSE_ERROR>") = str_of "<*>" /\
  embedded_template
    (VDict [(str_of "template", VStr []); (str_of "variables", VDict [])])
  = Some [].
Proof.
  split; [apply main_body_summary|].
  repeat split.
Qed.

(** C4 as stated fails: when the embedding call of the first of two lines
    fails, the driver raises and the second line is never started. *)
Lemma embedding_failure_stops_the_batch :
  let o := @main_on script Z scripted_client python_json utf8_strict
             [sample_log; second_log]
             (Script [inr (completion well_formed_text);
                      inr (completion well_formed_text)]
                     [inl RateLimited; inr (one_vector [1; 2; 3]%Z)]) in
  res o = Raise (APIError RateLimited) /\
  processed (events o) = [sample_log] /\
  length (parsed_results (events o)) = 1 /\
  length (parsed_results (events o)) <> length [sample_log; second_log].
Proof.
  vm_compute. repeat split. discriminate.
Qed.

Section Batch.

Context {W F : Type} {client : OpenAI W F} {json : JsonDecoder}
  {stdout : Stdout}.

Lemma main_body_block (log : str) (w : W) :
  partial_block log (events (main_body log w)) /\
  (forall u, res (main_body log w) = Ok u ->
             complete_block log (events (main_body log w))).
Proof.
  destruct (main_body_summary log w) as (P & R & _ & Hok).
  unfold partial_block, complete_block. rewrite P, R.
  split.
  - split; [reflexivity|].
    destruct (res (extract_template_and_variables_fewshot _ _ w));
      simpl; lia.
  - intros u Hu. destruct (Hok u Hu) as [record ->]. split; reflexivity.
Qed.

Lemma complete_blocks_processed lines blocks :
  Forall2 complete_block lines blocks ->
  processed (concat blocks) = lines /\
  length (parsed_results (concat blocks)) = length lines.
Proof.
  induction 1 as [|line block lines blocks [P R] _ [IHp IHr]]; simpl.
  - split; reflexivity.
  - rewrite processed_app, parsed_results_app, length_app, P, R, IHp, IHr.
    split; reflexivity.
Qed.

Lemma bind_ok {A B} (m : M W A) (k : A -> M W B) (w : W) (a : A) :
  res (m w) = Ok a ->
  bind m k w =
  Outcome (res (k a (world (m w)))) (world (k a (world (m w))))
    (events (m w) ++ events (k a (world (m w)))).
Proof. intros H. unfold bind. rewrite H. reflexivity. Qed.

Lemma bind_raise {A B} (m : M W A) (k : A -> M W B) (w : W) (e : exn) :
  res (m w) = Raise e ->
  bind m k w = Outcome (Raise e) (world (m w)) (events (m w)).
Proof. intros H. unfold bind. rewrite H. reflexivity. Qed.

Lemma outcome_eta {A} (o : outcome W A) :
  o = Outcome (res o) (world o) (events o).
Proof. destruct o. reflexivity. Qed.

(** The loop over two lists, one after the other, is the loop over both. *)
Lemma for_each_app (body : str -> M W unit) (xs ys : list str) (w : W) :
  for_each body (xs ++ ys) w =
  (for_each body xs ;;; for_each body ys) w.
Proof.
  revert w. induction xs as [|x xs IH]; intros w.
  - cbn [app for_each]. unfold bind, ret. cbn [res world events app].
    apply outcome_eta.
  - cbn [app for_each]. unfold bind.
    destruct (body x w) as [r1 w1 e1]. cbn [res world events].
    destruct r1 as [u|e]; cbn [res world events]; [|reflexivity].
    rewrite IH. unfold bind.
    destruct (for_each body xs w1) as [r2 w2 e2]. cbn [res world events].
    destruct r2 as [u'|e']; cbn [res world events];
      rewrite ?app_assoc; reflexivity.
Qed.

Lemma main_on_blocks (lines : list str) (w : W) :
  let o := main_on lines w in
  match res o with
  | Ok _ =>
      exists blocks,
        events o = concat blocks /\ Forall2 complete_block lines blocks
  | Raise e =>
      exists done failed rest blocks last_block,
        lines = done ++ failed :: rest /\
        res (main_on done w) = Ok tt /\
        res (main_body failed (world (main_on done w))) = Raise e /\
        events o = concat blocks ++ last_block /\
        Forall2 complete_block done blocks /\
        partial_block failed last_block
  end.
Proof.
  revert w. induction lines as [|line lines IH]; intros w.
  - simpl. exists []. split; constructor.
  - unfold main_on in *. cbn [for_each]. cbv zeta.
    destruct (main_body_block line w) as [Hpart Hfull].
    destruct (res (main_body line w)) as [u|e] eqn:Hres.
    + specialize (Hfull u eq_refl).
      specialize (IH (world (main_body line w))).
      cbv zeta in IH. erewrite bind_ok by exact Hres. cbn [res events].
      destruct (res (for_each main_body lines (world (main_body line w))))
        as [u'|e'].
      * destruct IH as (blocks & Hev & Hall).
        exists (events (main_body line w) :: blocks). split.
        -- rewrite Hev. reflexivity.
        -- constructor; assumption.
      * destruct IH as (done & failed & rest & blocks & last_block
                        & Hl & Hdone & Hfail & Hev & Hall & Hlast).
        exists (line :: done), failed, rest,
          (events (main_body line w) :: blocks), last_block.
        cbn [for_each]. erewrite bind_ok by exact Hres. cbn [res world].
        repeat split; try apply Hlast; try assumption.
        -- rewrite Hl. reflexivity.
        -- rewrite Hev, app_assoc. reflexivity.
        -- constructor; assumption.
    + erewrite bind_raise by exact Hres. cbn [res events].
      exists [], line, lines, [], (events (main_body line w)).
      cbn [for_each]. unfold ret. cbn [res world].
      repeat split; try apply Hpart; try assumption. constructor.
Qed.

(** A line on which the body raises ends the batch with that
    exception. *)
Lemma main_on_stops (done rest : list str) (line : str) (w : W) (e : exn) :
  res (main_on done w) = Ok tt ->
  res (main_body line (world (main_on done w))) = Raise e ->
  res (main_on (done ++ line :: rest) w) = Raise e /\
  processed (events (main_on (done ++ line :: rest) w)) = done ++ [line].
Proof.
  intros Hdone Hfail.
  pose proof (main_on_blocks done w) as Hb. cbv zeta in Hb.
  rewrite Hdone in Hb. destruct Hb as (blocks & Hev & Hall).
  destruct (complete_blocks_processed Hall) as [Hp _].
  destruct (main_body_summary line (world (main_on done w))) as (Hl & _).
  unfold main_on in *. rewrite for_each_app.
  erewrite bind_ok by exact Hdone. cbn [res events for_each].
  erewrite bind_raise by exact Hfail. cbn [res events].
  split; [reflexivity|].
  rewrite processed_app, Hev, Hp, Hl. reflexivity.
Qed.

(** What makes the body raise: a failure of the extraction, and a
    failure of the embedding call for a record that has a template. *)
Lemma main_body_failures (line : str) (w : W) :
  let extraction :=
    extract_template_and_variables_fewshot line FEW_SHOT_EXAMPLES w in
  (forall e, res extraction = Raise e -> res (main_body line w) = Raise e) /\
  (forall record template why w2,
      res extraction = Ok record ->
      embedded_template record = Some template ->
      embeddings_create embedding_model [normalize_template template]
        (world extraction) = (inl why, w2) ->
      res (main_body line w) = Raise (APIError why)).
Proof.
  intros extraction. split.
  - intros e He. rewrite main_body_run. fold extraction. cbv zeta.
    rewrite He. reflexivity.
  - intros record template why w2 Hr Ht Hc.
    rewrite main_body_run. fold extraction. cbv zeta. rewrite Hr.
    destruct record as [| b | z | f | s | l | d]; try discriminate Ht.
    unfold embedded_template in Ht.
    destruct (dict_get (str_of "template") d) as [[| b | z | f | s | l | d']|]
      eqn:Hg; try discriminate Ht.
    injection Ht as ->.
    simpl py_contains. unfold dict_has. rewrite Hg.
    simpl py_getitem. rewrite Hg. simpl normalize_template_of.
    cbv beta iota. rewrite get_embedding_run, Hc. reflexivity.
Qed.

End Batch.

(** C4, amended.  The driver works on the lines in order.  When no step
    raises, every one of the [N] lines gets its header and its record, in
    the order of the input.  A step that raises ends the batch with its
    exception: the driver raises what the body raised on the first line
    that failed, the lines before it are complete, the failing one has
    its header and at most its record, and the lines after it are not
    started.  The body raises whatever the extractor raises, and for a
    record with a template it raises the failure of the embedding
    call: nothing is caught, and no line is left without its vector
    while the batch goes on. *)
Theorem batch_runs_until_first_failure
    {W F : Type} (client : OpenAI W F) (json : JsonDecoder)
    (stdout : Stdout)
    (lines : list str) (w : W) :
  let o := main_on lines w in
  match res o with
  | Ok _ =>
      (exists blocks,
          events o = concat blocks /\ Forall2 complete_block lines blocks) /\
      processed (events o) = lines /\
      length (parsed_results (events o)) = length lines
  | Raise e =>
      exists done failed rest blocks last_block,
        lines = done ++ failed :: rest /\
        res (main_on done w) = Ok tt /\
        res (main_body failed (world (main_on done w))) = Raise e /\
        events o = concat blocks ++ last_block /\
        Forall2 complete_block done blocks /\
        partial_block failed last_block /\
        processed (events o) = done ++ [failed]
  end
  /\
  (forall done line rest e,
      lines = done ++ line :: rest ->
      res (main_on done w) = Ok tt ->
      res (main_body line (world (main_on done w))) = Raise e ->
      res o = Raise e /\ processed (events o) = done ++ [line])
  /\
  (forall line w0,
      let extraction :=
        extract_template_and_variables_fewshot line FEW_SHOT_EXAMPLES w0 in
      (forall e,
          res extraction = Raise e -> res (main_body line w0) = Raise e) /\
      (forall record template why w2,
          res extraction = Ok record ->
          embedded_template record = Some template ->
          embeddings_create embedding_model [normalize_template template]
            (world extraction) = (inl why, w2) ->
          res (main_body line w0) = Raise (APIError why))).
Proof.
  intros o. split; [|split].
  - pose proof (main_on_blocks lines w) as H. fold o in H.
    cbv zeta in H. destruct (res o) as [u|e].
    + destruct H as (blocks & Hev & Hall). split.
      * exists blocks. auto.
      * rewrite Hev. apply complete_blocks_processed. exact Hall.
    + destruct H as (done & failed & rest & blocks & last_block
                     & Hl & Hdone & Hfail & Hev & Hall & Hlast).
      exists done, failed, rest, blocks, last_block.
      repeat split; try assumption; try apply Hlast.
      rewrite Hev, processed_app.
      destruct (complete_blocks_processed Hall) as [-> _].
      destruct Hlast as [-> _]. reflexivity.
  - intros done line rest e -> Hdone Hfail. subst o.
    apply main_on_stops; assumption.
  - intros line w0. apply main_body_failures.
Qed.

Lemma batch_runs_until_first_failure_witness :
  let o := @main_on script Z scripted_client python_json utf8_strict
             [sample_log; second_log]
             (Script [inr (completion well_formed_text);
                      inr (completion well_formed_text)]
                     [inl RateLimited; inr (one_vector [1; 2; 3]%Z)]) in
  res o = Raise (APIError RateLimited) /\
  processed (events o) = [] ++ [sample_log].
Proof.
  refine (proj1 (proj2 (@batch_runs_until_first_failure
                          script Z scripted_client python_json utf8_strict
                          [sample_log; second_log]
                          (Script [inr (completion well_formed_text);
                                   inr (completion well_formed_text)]
                                  [inl RateLimited;
                                   inr (one_vector [1; 2; 3]%Z)])))
            [] sample_log [second_log] (APIError RateLimited) _ _ _);
    reflexivity.
Defined.

(** * More of the program *)

(** ** More on [normalize_template] *)

Section NormalizerMore.

Lemma strip_pad (a t b : str) :
  forallb py_isspace a = true -> forallb py_isspace b = true ->
  strip (a ++ t ++ b) = strip t.
Proof.
  intros Ha Hb. symmetry. apply Trimmed_strip.
  destruct (strip_Trimmed t) as (a0 & b0 & E & Ha0 & Hb0 & Hhd & Hlast).
  exists (a ++ a0), (b0 ++ b). repeat split; auto.
  - rewrite E at 1. rewrite <- !app_assoc. reflexivity.
  - rewrite forallb_app, Ha, Ha0. reflexivity.
  - rewrite forallb_app, Hb, Hb0. reflexivity.
Qed.

Lemma Collapsed_length s o : Collapsed s o -> length o <= length s.
Proof.
  intros H. induction H as [|name rest out [Hne _] H IH|c rest out _ H IH].
  - auto.
  - unfold placeholder. rewrite !length_app. cbn [length].
    rewrite length_app. cbn [length].
    change (length (str_of "<*>")) with 3.
    destruct name; [congruence|]. cbn [length]. lia.
  - cbn [length]. lia.
Qed.

Lemma strip_length (t : str) : length (strip t) <= length t.
Proof.
  destruct (strip_Trimmed t) as (a & b & E & _).
  rewrite E at 2. rewrite !length_app. lia.
Qed.

(** In the output of collapsing, the only placeholder is [<*>]. *)
Lemma Collapsed_only_wildcards s o :
  Collapsed s o ->
  forall before name rest,
    placeholder_name name ->
    o = before ++ placeholder name ++ rest ->
    name = [42%N].
Proof.
  intros H. induction H as [|n r out Hn H IH|c r out Hno H IH];
    intros before name rest Hname E.
  - destruct before; discriminate.
  - destruct before as [|b0 [|b1 [|b2 before]]].
    + change (placeholder [42%N] ++ out = placeholder name ++ rest) in E.
      symmetry.
      refine (proj1 (placeholder_unique _ Hname E)).
      split; [discriminate|]. intros [X|[]]. discriminate.
    + change (str_of "<*>") with [60%N; 42%N; 62%N] in E.
      unfold placeholder, lt_sign in E. cbn [app] in E. discriminate.
    + change (str_of "<*>") with [60%N; 42%N; 62%N] in E.
      unfold placeholder, lt_sign in E. cbn [app] in E. discriminate.
    + change (str_of "<*>") with [60%N; 42%N; 62%N] in E.
      cbn [app] in E. injection E as _ _ _ E.
      apply (IH before name rest Hname E).
  - destruct before as [|b0 before].
    + exfalso. apply Hno. eapply Collapsed_starts; [exact H|].
      exists name, rest. split; [exact Hname|]. exact E.
    + cbn [app] in E. injection E as _ E.
      apply (IH before name rest Hname E).
Qed.

End NormalizerMore.

(** X1.  Whatever the argument, a placeholder found in the normalised
    template is the wildcard [<*>]: no named placeholder is left. *)
Theorem normalize_template_leaves_only_wildcards
    (t before name rest : str) :
  placeholder_name name ->
  normalize_template t = before ++ placeholder name ++ rest ->
  placeholder name = str_of "<*>".
Proof.
  intros Hname E.
  rewrite (Collapsed_only_wildcards (re_sub_Collapsed (strip t))
             before rest Hname E).
  reflexivity.
Qed.

Lemma normalize_template_leaves_only_wildcards_witness :
  placeholder [42%N] = str_of "<*>".
Proof.
  refine (@normalize_template_leaves_only_wildcards
            (str_of " <USER> logged in ") [] [42%N] (str_of " logged in")
            _ _).
  - split; [discriminate|]. intros [X|[]]. discriminate.
  - reflexivity.
Defined.

(** X2.  The normalised template has no whitespace at either end, it is
    never longer than the argument, and whitespace added around the
    argument does not change it. *)
Theorem normalize_template_is_trimmed_and_short (t : str) :
  strip (normalize_template t) = normalize_template t /\
  length (normalize_template t) <= length t /\
  (forall a b,
      forallb py_isspace a = true -> forallb py_isspace b = true ->
      normalize_template (a ++ t ++ b) = normalize_template t).
Proof.
  split; [|split].
  - apply (Collapsed_trimmed (re_sub_Collapsed (strip t)) (strip_strip t)).
  - pose proof (Collapsed_length (re_sub_Collapsed (strip t))) as H1.
    pose proof (strip_length t) as H2.
    unfold normalize_template. lia.
  - intros a b Ha Hb. unfold normalize_template.
    rewrite strip_pad by assumption. reflexivity.
Qed.

Section PlaceholderNames.

Lemma lstrip_before_nonspace (a x : str) (c : N) :
  py_isspace c = false -> lstrip (a ++ c :: x) = lstrip a ++ c :: x.
Proof.
  intros Hc. induction a as [|d a IH]; simpl.
  - rewrite Hc. reflexivity.
  - destruct (py_isspace d); auto.
Qed.

Lemma rstrip_after_nonspace (x b : str) (c : N) :
  py_isspace c = false -> rstrip (x ++ c :: b) = x ++ c :: rstrip b.
Proof.
  intros Hc. induction x as [|d x IH]; simpl.
  - destruct (rstrip b); [rewrite Hc|]; reflexivity.
  - rewrite IH. destruct x; reflexivity.
Qed.

Lemma strip_around_placeholder (a name b : str) :
  strip (a ++ placeholder name ++ b)
  = lstrip a ++ placeholder name ++ rstrip b.
Proof.
  unfold strip, placeholder. cbn [app].
  rewrite lstrip_before_nonspace by reflexivity.
  replace (lstrip a ++ lt_sign :: (name ++ [gt_sign]) ++ b)
    with ((lstrip a ++ lt_sign :: name) ++ gt_sign :: b)
    by (rewrite <- !app_assoc; reflexivity).
  rewrite rstrip_after_nonspace by reflexivity.
  rewrite <- !app_assoc. reflexivity.
Qed.

Lemma starts_with_placeholder_intro (c : N) (r : str) :
  c = lt_sign -> In gt_sign r -> (forall r', r <> gt_sign :: r') ->
  starts_with_placeholder (c :: r).
Proof.
  intros -> Hin Hhd. destruct (first_gt _ Hin) as (a & b & -> & Ha).
  exists a, b. split.
  - split; [|exact Ha]. intros ->. apply (Hhd b). reflexivity.
  - unfold placeholder. cbn [app]. rewrite <- app_assoc. reflexivity.
Qed.

Lemma starts_with_placeholder_elim (c : N) (r : str) :
  starts_with_placeholder (c :: r) ->
  c = lt_sign /\ In gt_sign r /\ (forall r', r <> gt_sign :: r').
Proof.
  intros (name & rest & [Hne Hn] & E).
  unfold placeholder in E. cbn [app] in E. injection E as -> ->.
  repeat split.
  - apply in_or_app. left. apply in_or_app. right. left. reflexivity.
  - intros r' E. destruct name as [|d name]; [congruence|].
    cbn [app] in E. injection E as -> _. apply Hn. left. reflexivity.
Qed.

Lemma in_placeholder (name : str) : In gt_sign (placeholder name).
Proof.
  unfold placeholder. right. apply in_or_app. right. left. reflexivity.
Qed.

(** Collapsing does not look at the name of a placeholder. *)
Lemma Collapsed_rename (n1 n2 : str) :
  placeholder_name n1 -> placeholder_name n2 ->
  forall s o, Collapsed s o ->
  forall x y, s = x ++ placeholder n1 ++ y ->
  Collapsed (x ++ placeholder n2 ++ y) o.
Proof.
  intros H1 H2 s o H.
  induction H as [|name rest out Hname H IH|c rest out Hno H IH];
    intros x y E.
  - destruct x; discriminate.
  - destruct x as [|c x].
    + cbn [app] in *. destruct (placeholder_unique Hname H1 E) as [_ ->].
      apply Collapsed_placeholder; assumption.
    + unfold placeholder in E. cbn [app] in E. injection E as <- E.
      rewrite <- !app_assoc in E. cbn [app] in E.
      destruct (in_dec N.eq_dec gt_sign x) as [Hin|Hout].
      * destruct (first_gt _ Hin) as (a0 & b0 & -> & Ha0).
        rewrite <- app_assoc in E. cbn [app] in E.
        destruct (@placeholder_split_unique _ _ _ _ (proj2 Hname) Ha0 E)
          as [-> ->].
        replace ((lt_sign :: a0 ++ gt_sign :: b0) ++ placeholder n2 ++ y)
          with (placeholder a0 ++ b0 ++ placeholder n2 ++ y)
          by (unfold placeholder; cbn [app]; rewrite <- !app_assoc;
              reflexivity).
        apply Collapsed_placeholder; [exact Hname|].
        apply IH. unfold placeholder. cbn [app].
        rewrite <- !app_assoc. reflexivity.
      * assert (Hx : ~ In gt_sign (x ++ lt_sign :: n1)).
        { intros Hi. apply in_app_or in Hi.
          destruct Hi as [Hi|[Hi|Hi]]; [auto|discriminate|].
          apply (proj2 H1). exact Hi. }
        assert (E' : name ++ gt_sign :: rest
                     = (x ++ lt_sign :: n1) ++ gt_sign :: y).
        { rewrite E, <- app_assoc. reflexivity. }
        destruct (@placeholder_split_unique _ _ _ _ (proj2 Hname) Hx E')
          as [-> ->].
        replace ((lt_sign :: x) ++ placeholder n2 ++ y)
          with (placeholder (x ++ lt_sign :: n2) ++ y)
          by (unfold placeholder; cbn [app]; rewrite <- !app_assoc;
              reflexivity).
        apply Collapsed_placeholder; [|exact H].
        split.
        -- destruct x; discriminate.
        -- intros Hi. apply in_app_or in Hi.
           destruct Hi as [Hi|[Hi|Hi]]; [auto|discriminate|].
           apply (proj2 H2). exact Hi.
  - destruct x as [|d x].
    + exfalso. apply Hno. exists n1, y. split; [exact H1|]. exact E.
    + cbn [app] in E. injection E as <- ->. cbn [app].
      apply Collapsed_copy; [|apply IH; reflexivity].
      intros Hs. apply Hno.
      apply starts_with_placeholder_elim in Hs.
      destruct Hs as (-> & _ & Hhd).
      apply starts_with_placeholder_intro; [reflexivity| |].
      * assert (Hin : In gt_sign (x ++ placeholder n1 ++ y)).
        { apply in_or_app. right. apply in_or_app. left.
          apply in_placeholder. }
        exact Hin.
      * intros r' E. destruct x as [|e x].
        -- unfold placeholder in E. discriminate.
        -- cbn [app] in E. injection E as -> _.
           eapply Hhd. reflexivity.
Qed.

End PlaceholderNames.

(** X3.  The names of the placeholders play no part: two templates that
    differ in the name of a placeholder have the same normal form. *)
Theorem normalize_template_ignores_names (a n1 n2 b : str) :
  placeholder_name n1 -> placeholder_name n2 ->
  normalize_template (a ++ placeholder n1 ++ b)
  = normalize_template (a ++ placeholder n2 ++ b).
Proof.
  intros H1 H2. unfold normalize_template.
  rewrite !strip_around_placeholder.
  eapply Collapsed_functional; [apply re_sub_Collapsed|].
  eapply (Collapsed_rename H2 H1); [apply re_sub_Collapsed|reflexivity].
Qed.

Lemma normalize_template_ignores_names_witness :
  normalize_template
    (str_of "login of " ++ placeholder (str_of "USER") ++ str_of " ok")
  = normalize_template
      (str_of "login of " ++ placeholder (str_of "USERNAME")
         ++ str_of " ok").
Proof.
  refine (@normalize_template_ignores_names
            (str_of "login of ") (str_of "USER") (str_of "USERNAME")
            (str_of " ok") _ _);
    (split; [discriminate|]);
    simpl; intros H; repeat (destruct H as [H|H]; [discriminate H|]);
    exact H.
Defined.

(** ** More on the extractors *)

Section ExtractorsMore.

Context {W F : Type} {client : OpenAI W F} {json : JsonDecoder}
  {stdout : Stdout}.

Lemma zero_shot_effects (log_line : str) (w : W) :
  world (extract_template_and_variables log_line w)
  = snd (chat_completions_create gpt_4 0%Z
           [(user, zero_shot_prompt log_line)] w) /\
  events (extract_template_and_variables log_line w)
  = [ChatCall gpt_4 0 [(user, zero_shot_prompt log_line)]].
Proof.
  run_program. unfold gpt_4, user.
  destruct (chat_completions_create _ _ _ w) as [[why|response] w1];
    simpl; auto.
  destruct (choices response) as [[|choice rest]|]; simpl; auto.
  destruct (content (message choice)) as [text|]; simpl; auto.
  destruct (json_loads (strip text)) as [v|[msg| |]]; simpl; auto.
Qed.

Lemma few_shot_effects (log_line examples : str) (w : W) :
  let call := chat_completions_create gpt_4 0%Z
                [(user, few_shot_prompt log_line examples)] w in
  world (extract_template_and_variables_fewshot log_line examples w)
  = snd call /\
  events (extract_template_and_variables_fewshot log_line examples w)
  = ChatCall gpt_4 0 [(user, few_shot_prompt log_line examples)]
      :: match fst call with
         | inr response =>
             match raw_text response with
             | Some text =>
                 if encodable (raw_output_line (strip text))
                 then [Print (raw_output_line (strip text))]
                 else []
             | None => []
             end
         | inl _ => []
         end.
Proof.
  run_program. unfold gpt_4, user, raw_output_line.
  destruct (chat_completions_create _ _ _ w) as [[why|response] w1];
    simpl; auto.
  destruct (choices response) as [[|choice rest]|]; simpl; auto.
  destruct (content (message choice)) as [text|]; simpl; auto.
  destruct (encodable _); simpl; auto.
  destruct (json_loads (strip text)) as [v|[msg| |]]; simpl; auto.
Qed.

Lemma zero_shot_no_text log_line w w' response :
  chat_completions_create gpt_4 0%Z
    [(user, zero_shot_prompt log_line)] w = (inr response, w') ->
  raw_text response = None ->
  res (extract_template_and_variables log_line w)
  = Raise match choices response with
          | None => TypeError
          | Some [] => IndexError
          | Some (_ :: _) => AttributeError
          end.
Proof.
  intros Hc Ht. run_program. unfold gpt_4, user in *. rewrite Hc. simpl.
  destruct (choices response) as [[|choice rest]|]; try reflexivity.
  simpl. rewrite Ht. reflexivity.
Qed.

Lemma few_shot_no_text log_line examples w w' response :
  chat_completions_create gpt_4 0%Z
    [(user, few_shot_prompt log_line examples)] w = (inr response, w') ->
  raw_text response = None ->
  res (extract_template_and_variables_fewshot log_line examples w)
  = Raise match choices response with
          | None => TypeError
          | Some [] => IndexError
          | Some (_ :: _) => AttributeError
          end.
Proof.
  intros Hc Ht. run_program. unfold gpt_4, user in *. rewrite Hc. simpl.
  destruct (choices response) as [[|choice rest]|]; try reflexivity.
  simpl. rewrite Ht. reflexivity.
Qed.

(** The few-shot extractor does not raise [KeyError]. *)
Lemma few_shot_no_KeyError log_line examples (w : W) key :
  res (extract_template_and_variables_fewshot log_line examples w)
  <> Raise (KeyError key).
Proof.
  run_program.
  destruct (chat_completions_create _ _ _ w) as [[why|response] w1]; simpl;
    [discriminate|].
  destruct (choices response) as [[|choice rest]|]; simpl;
    try discriminate.
  destruct (content (message choice)) as [text|]; simpl; [|discriminate].
  destruct (encodable _); simpl; [|discriminate].
  destruct (json_loads (strip text)) as [v|[msg| |]]; discriminate.
Qed.

End ExtractorsMore.

(** X4.  Whatever happens, each extractor makes one call to the
    completion service: model [gpt-4], temperature 0, one message of the
    role [user] that holds the prompt; the world is left as that call
    left it.  The zero-shot extractor prints nothing.  The few-shot one
    prints the stripped text once when the completion has a text that
    standard output can encode, also when that text will not decode;
    when the completion has no text, or one that cannot be encoded (the
    [print] raises), it prints nothing. *)
Theorem extractors_call_the_service_once
    {W F : Type} (client : OpenAI W F) (json : JsonDecoder)
    (stdout : Stdout)
    (log_line examples : str) (w : W) :
  let zero := extract_template_and_variables log_line w in
  let few := extract_template_and_variables_fewshot log_line examples w in
  let zero_call := chat_completions_create gpt_4 0%Z
                     [(user, zero_shot_prompt log_line)] w in
  let few_call := chat_completions_create gpt_4 0%Z
                    [(user, few_shot_prompt log_line examples)] w in
  world zero = snd zero_call /\
  events zero = [ChatCall gpt_4 0 [(user, zero_shot_prompt log_line)]] /\
  world few = snd few_call /\
  events few
  = ChatCall gpt_4 0 [(user, few_shot_prompt log_line examples)]
      :: match fst few_call with
         | inr response =>
             match raw_text response with
             | Some text =>
                 if encodable (raw_output_line (strip text))
                 then [Print (raw_output_line (strip text))]
                 else []
             | None => []
             end
         | inl _ => []
         end /\
  (forall response text,
      fst few_call = inr response ->
      raw_text response = Some text ->
      encodable (raw_output_line (strip text)) = false ->
      res few = Raise UnicodeEncodeError).
Proof.
  cbv zeta.
  destruct (zero_shot_effects log_line w) as [Hw He].
  destruct (few_shot_effects log_line examples w) as [Hw' He'].
  repeat split; auto.
  intros response text Hc Ht Hn.
  destruct (chat_completions_create gpt_4 0%Z
              [(user, few_shot_prompt log_line examples)] w)
    as [answer w1] eqn:Hcall.
  cbn [fst] in Hc. subst answer.
  rewrite (few_shot_result _ _ _ Hcall Ht), Hn. reflexivity.
Qed.

Lemma extractors_call_the_service_once_witness :
  res (@extract_template_and_variables_fewshot script Z scripted_client
         python_json utf8_strict sample_log FEW_SHOT_EXAMPLES
         (Script [inr (completion quoted_surrogate)] []))
  = Raise UnicodeEncodeError.
Proof.
  refine (proj2 (proj2 (proj2 (proj2
            (@extractors_call_the_service_once
               script Z scripted_client python_json utf8_strict
               sample_log FEW_SHOT_EXAMPLES
               (Script [inr (completion quoted_surrogate)] [])))))
            (completion quoted_surrogate) quoted_surrogate _ _ _);
    reflexivity.
Defined.

(** X5.  A completion whose [choices] is [None] makes the extractors
    raise [TypeError], one without choices [IndexError], and one whose
    first choice has no content [AttributeError]; these come from
    [response.choices[0].message.content.strip()] and are not caught. *)
Theorem extractors_raise_on_a_completion_without_text
    {W F : Type} (client : OpenAI W F) (json : JsonDecoder)
    (stdout : Stdout)
    (response : ChatCompletion) :
  raw_text response = None ->
  let raised :=
    match choices response with
    | None => TypeError
    | Some [] => IndexError
    | Some (_ :: _) => AttributeError
    end in
  (forall log_line w w',
      chat_completions_create gpt_4 0%Z
        [(user, zero_shot_prompt log_line)] w = (inr response, w') ->
      res (extract_template_and_variables log_line w) = Raise raised)
  /\
  (forall log_line examples w w',
      chat_completions_create gpt_4 0%Z
        [(user, few_shot_prompt log_line examples)] w = (inr response, w') ->
      res (extract_template_and_variables_fewshot log_line examples w)
      = Raise raised /\
      events (extract_template_and_variables_fewshot log_line examples w)
      = [ChatCall gpt_4 0 [(user, few_shot_prompt log_line examples)]]).
Proof.
  intros Ht raised. split.
  - intros log_line w w' Hc. apply (zero_shot_no_text _ _ Hc Ht).
  - intros log_line examples w w' Hc. split.
    + apply (few_shot_no_text _ _ _ Hc Ht).
    + destruct (few_shot_effects log_line examples w) as [_ He].
      cbv zeta in He. rewrite He, Hc. cbn [fst]. rewrite Ht. reflexivity.
Qed.

Lemma extractors_raise_on_a_completion_without_text_witness :
  res (@extract_template_and_variables script Z scripted_client python_json
         sample_log (Script [inr {| choices := Some [] |}] []))
  = Raise IndexError /\
  res (@extract_template_and_variables script Z scripted_client python_json
         sample_log (Script [inr {| choices := None |}] []))
  = Raise TypeError.
Proof.
  split.
  - refine (proj1 (@extractors_raise_on_a_completion_without_text
                     script Z scripted_client python_json utf8_strict
                     {| choices := Some [] |} _)
              sample_log (Script [inr {| choices := Some [] |}] [])
              (Script [] []) _);
      reflexivity.
  - refine (proj1 (@extractors_raise_on_a_completion_without_text
                     script Z scripted_client python_json utf8_strict
                     {| choices := None |} _)
              sample_log (Script [inr {| choices := None |}] [])
              (Script [] []) _);
      reflexivity.
Defined.

(** X6.  The extractors strip the text before they decode it: whitespace
    around the text of the completion, of any kind [str.strip] removes,
    does not change what they return. *)
Theorem extractors_ignore_surrounding_whitespace
    {W F : Type} (client : OpenAI W F) (json : JsonDecoder)
    (stdout : Stdout)
    (text before after : str) :
  forallb py_isspace before = true ->
  forallb py_isspace after = true ->
  (forall log_line w w' w1 w1' response padded,
      chat_completions_create gpt_4 0%Z
        [(user, zero_shot_prompt log_line)] w = (inr response, w') ->
      chat_completions_create gpt_4 0%Z
        [(user, zero_shot_prompt log_line)] w1 = (inr padded, w1') ->
      raw_text response = Some text ->
      raw_text padded = Some (before ++ text ++ after) ->
      res (extract_template_and_variables log_line w)
      = res (extract_template_and_variables log_line w1))
  /\
  (forall log_line examples w w' w1 w1' response padded,
      chat_completions_create gpt_4 0%Z
        [(user, few_shot_prompt log_line examples)] w = (inr response, w') ->
      chat_completions_create gpt_4 0%Z
        [(user, few_shot_prompt log_line examples)] w1 = (inr padded, w1') ->
      raw_text response = Some text ->
      raw_text padded = Some (before ++ text ++ after) ->
      res (extract_template_and_variables_fewshot log_line examples w)
      = res (extract_template_and_variables_fewshot log_line examples w1)).
Proof.
  intros Hb Ha. split.
  - intros log_line w w' w1 w1' response padded Hc Hc1 Ht Ht1.
    rewrite (zero_shot_result _ _ Hc Ht), (zero_shot_result _ _ Hc1 Ht1).
    rewrite strip_pad by assumption. reflexivity.
  - intros log_line examples w w' w1 w1' response padded Hc Hc1 Ht Ht1.
    rewrite (few_shot_result _ _ _ Hc Ht), (few_shot_result _ _ _ Hc1 Ht1).
    rewrite strip_pad by assumption. reflexivity.
Qed.

Lemma extractors_ignore_surrounding_whitespace_witness :
  res (@extract_template_and_variables script Z scripted_client python_json
         sample_log (Script [inr (completion well_formed_text)] []))
  = res (@extract_template_and_variables script Z scripted_client
           python_json sample_log
           (Script [inr (completion
                           ([160%N; 10%N] ++ well_formed_text ++ [8195%N]))]
                   [])).
Proof.
  refine (proj1 (@extractors_ignore_surrounding_whitespace
                   script Z scripted_client python_json utf8_strict
                   well_formed_text [160%N; 10%N] [8195%N] _ _)
            sample_log
            (Script [inr (completion well_formed_text)] []) (Script [] [])
            (Script [inr (completion
                            ([160%N; 10%N] ++ well_formed_text ++ [8195%N]))]
                    [])
            (Script [] [])
            (completion well_formed_text)
            (completion ([160%N; 10%N] ++ well_formed_text ++ [8195%N]))
            _ _ _ _);
    reflexivity.
Defined.

(** ** The prompts *)

Lemma zero_shot_prompt_shape (log_line : str) :
  zero_shot_prompt log_line
  = zero_shot_head ++ log_line ++ nl ++ str_of "    ".
Proof.
  unfold zero_shot_prompt, zero_shot_head. cbn [join_lines].
  rewrite <- !app_assoc. reflexivity.
Qed.

Lemma few_shot_prompt_shape (log_line examples : str) :
  few_shot_prompt log_line examples
  = few_shot_head ++ examples ++ few_shot_middle ++ log_line
      ++ nl ++ str_of "    ".
Proof.
  unfold few_shot_prompt, few_shot_head, few_shot_middle.
  cbn [join_lines]. rewrite <- !app_assoc. reflexivity.
Qed.

(** X7.  Both prompts hold the log line as it is, without escaping,
    between a text that does not depend on it and the same last line; the
    few-shot prompt holds the examples as they are before it.  So, for
    given examples, two different log lines never get the same prompt. *)
Theorem prompts_hold_the_log_line_verbatim :
  (exists head, forall log_line,
      zero_shot_prompt log_line
      = head ++ log_line ++ nl ++ str_of "    ") /\
  (exists head middle, forall log_line examples,
      few_shot_prompt log_line examples
      = head ++ examples ++ middle ++ log_line ++ nl ++ str_of "    ") /\
  (forall l1 l2, zero_shot_prompt l1 = zero_shot_prompt l2 -> l1 = l2) /\
  (forall examples l1 l2,
      few_shot_prompt l1 examples = few_shot_prompt l2 examples -> l1 = l2).
Proof.
  split; [exists zero_shot_head; apply zero_shot_prompt_shape|].
  split; [exists few_shot_head, few_shot_middle;
          intros; apply few_shot_prompt_shape|].
  split.
  - intros l1 l2 E. rewrite !zero_shot_prompt_shape in E.
    apply app_inv_head in E. apply app_inv_tail in E. exact E.
  - intros examples l1 l2 E. rewrite !few_shot_prompt_shape in E.
    do 3 apply app_inv_head in E. apply app_inv_tail in E. exact E.
Qed.

(** ** More on the driver *)

Section DriverMore.

Context {W F : Type} {client : OpenAI W F} {json : JsonDecoder}
  {stdout : Stdout}.

(** What one turn of the loop returns, by the kind of the record. *)
Lemma main_body_result (log : str) (w : W) :
  let o1 := extract_template_and_variables_fewshot log FEW_SHOT_EXAMPLES w in
  res (main_body log w) =
  match res o1 with
  | Raise e => Raise e
  | Ok (VDict d) =>
      match dict_get (str_of "template") d with
      | None => Ok tt
      | Some (VStr s) =>
          match res (get_embedding (normalize_template s) (world o1)) with
          | Ok _ => Ok tt
          | Raise e => Raise e
          end
      | Some _ => Raise AttributeError
      end
  | Ok (VList l) =>
      if existsb (fun x => match x with
                           | VStr s => str_eqb (str_of "template") s
                           | _ => false
                           end) l
      then Raise TypeError else Ok tt
  | Ok (VStr s) =>
      if is_substring (str_of "template") s then Raise TypeError else Ok tt
  | Ok _ => Raise TypeError
  end.
Proof.
  intros o1. rewrite main_body_run. fold o1. cbv zeta.
  destruct (res o1) as [record|e]; [|reflexivity].
  destruct record as [| b | z | f | s | l | d]; simpl py_contains;
    cbv beta iota; try reflexivity.
  - destruct (is_substring (str_of "template") s); reflexivity.
  - destruct (existsb _ l); reflexivity.
  - unfold dict_has. simpl py_getitem.
    destruct (dict_get (str_of "template") d) as [template|];
      [|reflexivity].
    destruct template; simpl normalize_template_of; cbv beta iota;
      try reflexivity.
    destruct (res (get_embedding (normalize_template s) (world o1)));
      reflexivity.
Qed.

Lemma get_embedding_raises (text : str) (w : W) e :
  res (get_embedding text w) = Raise e ->
  (exists why, e = APIError why) \/ e = IndexError.
Proof.
  rewrite get_embedding_run.
  destruct (embeddings_create _ _ w) as [[why|response] w1]; simpl.
  - intros E. injection E as <-. left. eauto.
  - destruct (data response); [|discriminate].
    intros E. injection E as <-. auto.
Qed.

Lemma main_body_no_KeyError (log : str) (w : W) (key : str) :
  res (main_body log w) <> Raise (KeyError key).
Proof.
  rewrite main_body_result. cbv zeta.
  destruct (res (extract_template_and_variables_fewshot _ _ w))
    as [record|e] eqn:Hr.
  - destruct record as [| b | z | f | s | l | d]; try discriminate.
    + destruct (is_substring _ s); discriminate.
    + destruct (existsb _ l); discriminate.
    + destruct (dict_get _ d) as [[| b | z | f | s | l | d']|];
        try discriminate.
      destruct (res (get_embedding _ _)) as [v|e] eqn:He; [discriminate|].
      intros E. injection E as ->.
      destruct (get_embedding_raises _ _ He) as [[why X]|X]; discriminate.
  - intros E. injection E as ->.
    exact (few_shot_no_KeyError _ _ _ Hr).
Qed.

Lemma chat_calls_app a b :
  chat_calls (a ++ b) = chat_calls a ++ chat_calls b.
Proof. apply flat_map_app. Qed.

(** One turn of the loop makes one completion call, with the few-shot
    prompt of its line, and at most one embedding call. *)
Lemma main_body_calls (log : str) (w : W) :
  chat_calls (events (main_body log w))
  = [[(user, few_shot_prompt log FEW_SHOT_EXAMPLES)]] /\
  length (embed_calls (events (main_body log w))) <= 1.
Proof.
  split.
  - rewrite main_body_run. cbv zeta.
    destruct (few_shot_effects log FEW_SHOT_EXAMPLES w) as [_ He].
    cbv zeta in He.
    set (o1 := extract_template_and_variables_fewshot log FEW_SHOT_EXAMPLES w)
      in *.
    assert (Hc : chat_calls (events o1)
                 = [[(user, few_shot_prompt log FEW_SHOT_EXAMPLES)]]).
    { rewrite He.
      destruct (fst (chat_completions_create _ _ _ w)) as [why|response];
        [reflexivity|].
      destruct (raw_text response) as [text|]; [|reflexivity].
      destruct (encodable _); reflexivity. }
    assert (Hh : forall tail,
               chat_calls (Print (processing_header ++ log) :: tail)
               = chat_calls tail) by reflexivity.
    destruct (res o1) as [record|e]; [|cbn [events]; rewrite Hh; exact Hc].
    destruct (py_contains _ record) as [[|]|e];
      try (cbn [events]; rewrite Hh, chat_calls_app, Hc; reflexivity).
    destruct (py_getitem record _) as [template|e];
      try (cbn [events]; rewrite Hh, chat_calls_app, Hc; reflexivity).
    destruct (normalize_template_of template) as [text|e];
      try (cbn [events]; rewrite Hh, chat_calls_app, Hc; reflexivity).
    pose proof (get_embedding_events text (world o1)) as Hev.
    destruct (res (get_embedding text (world o1)));
      cbn [events]; rewrite !chat_calls_app, Hh, chat_calls_app, Hc, Hev;
      reflexivity.
  - destruct (main_body_summary log w) as (_ & _ & -> & _).
    destruct (res (extract_template_and_variables_fewshot _ _ w))
      as [record|e]; [|simpl; lia].
    destruct (embedded_template record); simpl; lia.
Qed.

End DriverMore.

(** X8.  What one turn of the loop of [main] comes to, by the record the
    extractor returned.  A [dict] without the key ["template"] is printed
    and the line is done with no embedding; with a [str] under that key
    the turn ends as [get_embedding] does; with anything else under it
    the turn raises [AttributeError].  A [list] or a [str] passes the test
    [in] only to fail at the subscript with [TypeError]; a number, a
    boolean or [None] fails at the test itself with [TypeError]. *)
Theorem main_turn_result_by_record
    {W F : Type} (client : OpenAI W F) (json : JsonDecoder)
    (stdout : Stdout)
    (log : str) (w : W) :
  let o1 := extract_template_and_variables_fewshot log FEW_SHOT_EXAMPLES w in
  res (main_body log w) =
  match res o1 with
  | Raise e => Raise e
  | Ok (VDict d) =>
      match dict_get (str_of "template") d with
      | None => Ok tt
      | Some (VStr s) =>
          match res (get_embedding (normalize_template s) (world o1)) with
          | Ok _ => Ok tt
          | Raise e => Raise e
          end
      | Some _ => Raise AttributeError
      end
  | Ok (VList l) =>
      if existsb (fun x => match x with
                           | VStr s => str_eqb (str_of "template") s
                           | _ => false
                           end) l
      then Raise TypeError else Ok tt
  | Ok (VStr s) =>
      if is_substring (str_of "template") s then Raise TypeError else Ok tt
  | Ok _ => Raise TypeError
  end.
Proof.
  apply main_body_result.
Qed.

(** X9.  The driver never fails on a missing key: the test
    [if "template" in result] stands before [result["template"]].  No
    batch ends with [KeyError]. *)
Theorem main_never_raises_KeyError
    {W F : Type} (client : OpenAI W F) (json : JsonDecoder)
    (stdout : Stdout)
    (lines : list str) (w : W) (key : str) :
  res (main_on lines w) <> Raise (KeyError key).
Proof.
  revert w. unfold main_on.
  induction lines as [|line lines IH]; intros w; [discriminate|].
  cbn [for_each].
  destruct (res (main_body line w)) as [u|e] eqn:Hr.
  - erewrite bind_ok by exact Hr. cbn [res]. apply IH.
  - erewrite bind_raise by exact Hr. cbn [res]. rewrite <- Hr.
    apply main_body_no_KeyError.
Qed.

(** X10.  A line for which everything goes well.  The completion has a
    text that standard output can encode and that decodes to a [dict]
    with a [str] template, and the embedding service answers with at
    least one vector: the turn prints the header,
    calls the completion service, prints the raw text and the record,
    asks for the embedding of the normalised template and prints the
    length of the first vector; it returns normally and leaves the world
    as the embedding call left it. *)
Theorem main_turn_when_all_goes_well
    {W F : Type} (client : OpenAI W F) (json : JsonDecoder)
    (stdout : Stdout)
    (log text template : str) (d : dict) (w w1 w2 : W)
    (response : ChatCompletion) (answer : CreateEmbeddingResponse F)
    (item : Embedding F) (others : list (Embedding F)) :
  chat_completions_create gpt_4 0%Z
    [(user, few_shot_prompt log FEW_SHOT_EXAMPLES)] w = (inr response, w1) ->
  raw_text response = Some text ->
  encodable (raw_output_line (strip text)) = true ->
  json_loads (strip text) = inl (VDict d) ->
  dict_get (str_of "template") d = Some (VStr template) ->
  embeddings_create embedding_model [normalize_template template] w1
  = (inr answer, w2) ->
  data answer = item :: others ->
  main_body log w =
  Outcome (Ok tt) w2
    [ Print (processing_header ++ log);
      ChatCall gpt_4 0 [(user, few_shot_prompt log FEW_SHOT_EXAMPLES)];
      Print (raw_output_line (strip text));
      PrintJson parsed_label (VDict d);
      EmbedCall embedding_model [normalize_template template];
      Print (str_of "Embedding length: "
             ++ decimal (length (embedding item))) ].
Proof.
  intros Hc Ht Hp Hd Hg He Hi.
  rewrite main_body_run. cbv zeta.
  pose proof (few_shot_result _ _ _ Hc Ht) as Hres.
  destruct (few_shot_effects log FEW_SHOT_EXAMPLES w) as [Hw Hev].
  cbv zeta in Hev. rewrite Hc in Hw, Hev. cbn [fst snd] in Hw, Hev.
  rewrite Ht, Hp in Hev. rewrite Hp, Hd in Hres. cbn [parse_response] in Hres.
  rewrite Hres, Hw, Hev.
  simpl py_contains. unfold dict_has. rewrite Hg.
  simpl py_getitem. rewrite Hg. simpl normalize_template_of.
  cbv beta iota.
  rewrite get_embedding_run, He, Hi. reflexivity.
Qed.

Lemma main_turn_when_all_goes_well_witness :
  @main_body script Z scripted_client python_json utf8_strict sample_log
    (Script [inr (completion well_formed_text)]
            [inr (one_vector [3; 1; 4]%Z)])
  = Outcome (Ok tt) (Script [] [])
      [ Print (processing_header ++ sample_log);
        ChatCall gpt_4 0
          [(user, few_shot_prompt sample_log FEW_SHOT_EXAMPLES)];
        Print (raw_output_line (strip well_formed_text));
        PrintJson parsed_label
          (VDict [ (str_of "template",
                    VStr (str_of "<TIMESTAMP> User <USERNAME>"));
                   (str_of "variables",
                    VDict [ (str_of "TIMESTAMP", VStr (str_of "10:23:45"));
                            (str_of "USERNAME", VStr (str_of "alice")) ]) ]);
        EmbedCall embedding_model
          [normalize_template (str_of "<TIMESTAMP> User <USERNAME>")];
        Print (str_of "Embedding length: "
               ++ decimal (length (embedding {| embedding := [3; 1; 4]%Z |}))) ].
Proof.
  refine (@main_turn_when_all_goes_well
            script Z scripted_client python_json utf8_strict
            sample_log well_formed_text
            (str_of "<TIMESTAMP> User <USERNAME>") _
            (Script [inr (completion well_formed_text)]
                    [inr (one_vector [3; 1; 4]%Z)])
            (Script [] [inr (one_vector [3; 1; 4]%Z)])
            (Script [] [])
            (completion well_formed_text) (one_vector [3; 1; 4]%Z)
            {| embedding := [3; 1; 4]%Z |} []
            _ _ _ _ _ _ _);
    reflexivity.
Defined.

(** X11.  For every line the driver starts it makes one completion call,
    with the few-shot prompt built from that line and [FEW_SHOT_EXAMPLES],
    in the order of the lines; it never makes more embedding calls than
    it started lines. *)
Theorem main_makes_one_completion_call_per_line
    {W F : Type} (client : OpenAI W F) (json : JsonDecoder)
    (stdout : Stdout)
    (lines : list str) (w : W) :
  let evs := events (main_on lines w) in
  chat_calls evs
  = map (fun line => [(user, few_shot_prompt line FEW_SHOT_EXAMPLES)])
      (processed evs) /\
  length (embed_calls evs) <= length (processed evs).
Proof.
  revert w. unfold main_on.
  induction lines as [|line lines IH]; intros w.
  - split; [reflexivity|apply le_n].
  - cbn [for_each]. cbv zeta.
    destruct (main_body_calls line w) as [Hc He].
    destruct (main_body_summary line w) as (Hp & _).
    destruct (res (main_body line w)) as [u|e] eqn:Hr.
    + erewrite bind_ok by exact Hr. cbn [events].
      destruct (IH (world (main_body line w))) as [IHc IHe].
      rewrite chat_calls_app, processed_app, embed_calls_app, map_app,
        !length_app, Hc, Hp, IHc.
      split; [reflexivity|]. cbn [length]. lia.
    + erewrite bind_raise by exact Hr. cbn [events].
      rewrite Hc, Hp. split; [reflexivity|]. cbn [length]. lia.
Qed.

(** X12.  A batch in two parts: the driver on [first ++ second] does
    what it does on [first] and then, from the world that left, on
    [second]; when it fails on [first], the lines of [second] change
    nothing. *)
Theorem main_on_two_parts
    {W F : Type} (client : OpenAI W F) (json : JsonDecoder)
    (stdout : Stdout)
    (first second : list str) (w : W) :
  main_on (first ++ second) w = (main_on first ;;; main_on second) w /\
  (forall e, res (main_on first w) = Raise e ->
             main_on (first ++ second) w = main_on first w).
Proof.
  unfold main_on. split.
  - apply for_each_app.
  - intros e He. rewrite for_each_app.
    erewrite bind_raise by exact He. rewrite <- He.
    symmetry. apply outcome_eta.
Qed.

Section EmbeddingInputs.

Context {W F : Type} {client : OpenAI W F} {json : JsonDecoder}
  {stdout : Stdout}.

Lemma main_body_embeds_normal_forms (log : str) (w : W) input :
  In input (embed_calls (events (main_body log w))) ->
  exists template, input = [normalize_template template].
Proof.
  destruct (main_body_summary log w) as (_ & _ & -> & _).
  destruct (res (extract_template_and_variables_fewshot _ _ w))
    as [record|e]; [|intros []].
  destruct (embedded_template record) as [s|]; [|intros []].
  intros [<-|[]]. exists s. reflexivity.
Qed.

End EmbeddingInputs.

(** X13.  Every request the driver sends to the embedding service, for
    any batch, is a batch of one text, and that text is a normalised
    template: normalising it again gives the same text.  No raw template
    is ever embedded. *)
Theorem main_embeds_normalised_templates_only
    {W F : Type} (client : OpenAI W F) (json : JsonDecoder)
    (stdout : Stdout)
    (lines : list str) (w : W) (input : list str) :
  In input (embed_calls (events (main_on lines w))) ->
  exists text, input = [text] /\ normalize_template text = text.
Proof.
  revert w. unfold main_on.
  induction lines as [|line lines IH]; intros w; [intros []|].
  cbn [for_each].
  assert (Hbody : In input (embed_calls (events (main_body line w))) ->
                  exists text,
                    input = [text] /\ normalize_template text = text).
  { intros Hin.
    destruct (main_body_embeds_normal_forms _ _ _ Hin) as [s ->].
    exists (normalize_template s). split; [reflexivity|].
    unfold normalize_template.
    rewrite (Collapsed_trimmed (re_sub_Collapsed (strip s))
               (strip_strip s)).
    eapply Collapsed_functional; [apply re_sub_Collapsed|].
    apply (Collapsed_fixed (re_sub_Collapsed (strip s))). }
  destruct (res (main_body line w)) as [u|e] eqn:Hr.
  - erewrite bind_ok by exact Hr. cbn [events].
    rewrite embed_calls_app. intros Hin. apply in_app_or in Hin.
    destruct Hin as [Hin|Hin]; [auto|eapply IH; exact Hin].
  - erewrite bind_raise by exact Hr. cbn [events]. exact Hbody.
Qed.

Lemma main_embeds_normalised_templates_only_witness :
  exists text,
    [str_of "<*> User <*>"] = [text] /\ normalize_template text = text.
Proof.
  refine (@main_embeds_normalised_templates_only
            script Z scripted_client python_json utf8_strict
            [sample_log; second_log]
            (Script [inr (completion well_formed_text);
                     inr (completion malformed_text)]
                    [inr (one_vector [1; 2]%Z); inl Timeout])
            [str_of "<*> User <*>"] _).
  vm_compute. left. reflexivity.
Defined.
